(** * Patch scripts of claude-workbench: text substitution, file transactions
      and the UTF-8 safe truncation helper.

    The development embeds
    - the Rust helper [truncate_utf8_safe] that [src-tauri/fix_utf8.py] inserts
      into [claude.rs] and [acemcp.rs] (bytes are [Z] in [0, 256), offsets are
      [nat], a panic is [None]);
    - the buffer transforms of [apply_platform_refactor.py], [fix_utf8.py] and
      [fix_mutex.py] ([str.replace], [re.sub], [in], [split], [readlines]);
    - the read / transform / write cycle of each [update_*] function over a
      file store, and the [__main__] job sequence with its [try]/[except]. *)

From Stdlib Require Import ZArith List Ascii String Lia Bool Arith.
From stdpp Require Import base gmap strings.
Import ListNotations.

(* ===================================================================== *)
(** ** The Rust helper of [fix_utf8.py] (TRUNCATE_FUNCTION)               *)
(* ===================================================================== *)

Module Rust.

Local Open Scope Z_scope.

(** [u8 as i8]: two's complement reinterpretation of a byte. *)
Definition as_i8 (b : Z) : Z := if b <? 128 then b else b - 256.

(** [u8::is_utf8_char_boundary]: [(self as i8) >= -0x40]. *)
Definition is_utf8_char_boundary (b : Z) : bool := -0x40 <=? as_i8 b.

(** [str::is_char_boundary]. Offset 0 and offset [len] are boundaries, an
    offset past the end is not, any other offset is one when the byte there
    is not a continuation byte. *)
Definition is_char_boundary (s : list Z) (index : nat) : bool :=
  if (index =? 0)%nat then true
  else if (length s <=? index)%nat then (index =? length s)%nat
  else is_utf8_char_boundary (nth index s 0).

(** [char::len_utf8]. *)
Definition len_utf8 (code : Z) : nat :=
  if code <? 0x80 then 1%nat
  else if code <? 0x800 then 2%nat
  else if code <? 0x10000 then 3%nat
  else 4%nat.

(** [utf8_first_byte] and [utf8_acc_cont_byte] of [core::str::validations]. *)
Definition utf8_first_byte (byte : Z) (width : Z) : Z :=
  Z.land byte (Z.shiftr 0x7F width).

Definition CONT_MASK : Z := 0x3F.

Definition utf8_acc_cont_byte (ch : Z) (byte : Z) : Z :=
  Z.lor (Z.shiftl ch 6) (Z.land byte CONT_MASK).

(** [next_code_point]: decodes the first character of a byte sequence.  The
    Rust code reads the continuation bytes unchecked; a missing one (which a
    [&str] never has) makes the model answer [None]. *)
Definition next_code_point (bytes : list Z) : option Z :=
  match bytes with
  | [] => None
  | x :: bytes1 =>
    if x <? 128 then Some x
    else
      let init := utf8_first_byte x 2 in
      match bytes1 with
      | [] => None
      | y :: bytes2 =>
        let ch := utf8_acc_cont_byte init y in
        if 0xE0 <=? x then
          match bytes2 with
          | [] => None
          | z :: bytes3 =>
            let y_z := utf8_acc_cont_byte (Z.land y CONT_MASK) z in
            let ch := Z.lor (Z.shiftl init 12) y_z in
            if 0xF0 <=? x then
              match bytes3 with
              | [] => None
              | w :: _ =>
                Some (Z.lor (Z.shiftl (Z.land init 7) 18)
                            (utf8_acc_cont_byte y_z w))
              end
            else Some ch
          end
        else Some ch
      end
  end.

(** [s.char_indices().next()]: the first character with its offset. *)
Definition char_indices_next (s : list Z) : option (nat * Z) :=
  option_map (fun ch => (0%nat, ch)) (next_code_point s).

(** [&s[..n]]: panics ([None]) unless [n] is a character boundary of [s]. *)
Definition slice_to (s : list Z) (n : nat) : option (list Z) :=
  if is_char_boundary s n then Some (firstn n s) else None.

(** The loop [while index > 0 && !s.is_char_boundary(index) { index -= 1 }]. *)
Fixpoint scan_back (s : list Z) (index : nat) : nat :=
  match index with
  | O => O
  | S index' => if is_char_boundary s index then index else scan_back s index'
  end.

Definition truncate_utf8_safe (s : list Z) (max_bytes : nat) : option (list Z) :=
  if (length s <=? max_bytes)%nat then Some s
  else
    let index := scan_back s max_bytes in
    if (index =? 0)%nat then
      match char_indices_next s with
      | Some (_, ch) => slice_to s (len_utf8 ch)
      | None => Some []
      end
    else slice_to s index.

(** What a [&str] holds: the encoding of a sequence of Unicode scalar values
    ([char::encode_utf8], by the four length classes). *)
Definition is_char (c : Z) : Prop :=
  0 <= c < 0xD800 \/ 0xE000 <= c <= 0x10FFFF.

Definition TAG_CONT : Z := 0x80.
Definition TAG_TWO_B : Z := 0xC0.
Definition TAG_THREE_B : Z := 0xE0.
Definition TAG_FOUR_B : Z := 0xF0.

Definition encode_utf8 (code : Z) : list Z :=
  match len_utf8 code with
  | 1%nat => [code]
  | 2%nat => [Z.lor (Z.land (Z.shiftr code 6) 0x1F) TAG_TWO_B;
              Z.lor (Z.land code 0x3F) TAG_CONT]
  | 3%nat => [Z.lor (Z.land (Z.shiftr code 12) 0x0F) TAG_THREE_B;
              Z.lor (Z.land (Z.shiftr code 6) 0x3F) TAG_CONT;
              Z.lor (Z.land code 0x3F) TAG_CONT]
  | _ => [Z.lor (Z.land (Z.shiftr code 18) 0x07) TAG_FOUR_B;
          Z.lor (Z.land (Z.shiftr code 12) 0x3F) TAG_CONT;
          Z.lor (Z.land (Z.shiftr code 6) 0x3F) TAG_CONT;
          Z.lor (Z.land code 0x3F) TAG_CONT]
  end.

(** The bytes of the string made of the characters [cs]. *)
Definition str_of (cs : list Z) : list Z := flat_map encode_utf8 cs.

(** The bytes of [encode_utf8] written with division and remainder. *)
Definition encode_arith (c : Z) : list Z :=
  if c <? 0x80 then [c]
  else if c <? 0x800 then [192 + c / 64; 128 + c mod 64]
  else if c <? 0x10000 then [224 + c / 4096; 128 + (c / 64) mod 64; 128 + c mod 64]
  else [240 + c / 262144; 128 + (c / 4096) mod 64; 128 + (c / 64) mod 64;
        128 + c mod 64].

End Rust.

(* ===================================================================== *)
(** ** Python text operations used by the patch scripts                   *)
(* ===================================================================== *)

(** A Python [str] is modelled by the bytes of its UTF-8 encoding, one
    [ascii] per byte.  Every anchor of the scripts is ASCII and [.] excludes
    only the line feed, so matching on bytes and matching on code points
    select the same spans. *)

Module Py.

Definition lit (s : string) : list ascii := list_ascii_of_string s.

Definition LF : ascii := "010"%char.
Definition CR : ascii := "013"%char.
Definition nl : list ascii := [LF].
(** The double quote character. *)
Definition dq : list ascii := ["034"%char].

(** [sep.join(parts)]. *)
Fixpoint join (sep : list ascii) (parts : list (list ascii)) : list ascii :=
  match parts with
  | [] => []
  | [p] => p
  | p :: ps => p ++ sep ++ join sep ps
  end.

(** [s.startswith(p)]. *)
Fixpoint startswith (s p : list ascii) : bool :=
  match p, s with
  | [], _ => true
  | _ :: _, [] => false
  | a :: p', b :: s' => Ascii.eqb a b && startswith s' p'
  end.

(** [p in s]. *)
Fixpoint contains (p s : list ascii) : bool :=
  startswith s p ||
  match s with
  | [] => false
  | _ :: s' => contains p s'
  end.

(** The scanning loop shared by [str.replace] and [re.sub]: [m] tells, at a
    position, how many characters the leftmost match starting there spans.
    A match is replaced by [repl] and scanning resumes after its end; an
    empty match is replaced and the next character copied.  [skip] counts
    the characters of the current match still to be dropped. *)
Fixpoint sub_from (m : list ascii -> option nat) (repl s : list ascii)
    (skip : nat) {struct s} : list ascii :=
  match skip with
  | S k =>
    match s with
    | [] => []
    | _ :: s' => sub_from m repl s' k
    end
  | O =>
    match m s with
    | Some (S k) =>
      repl ++ match s with
              | [] => []
              | _ :: s' => sub_from m repl s' k
              end
    | Some O =>
      repl ++ match s with
              | [] => []
              | c :: s' => c :: sub_from m repl s' 0
              end
    | None =>
      match s with
      | [] => []
      | c :: s' => c :: sub_from m repl s' 0
      end
    end
  end.

Definition match_literal (old s : list ascii) : option nat :=
  if startswith s old then Some (length old) else None.

(** [s.replace(old, new)]: every occurrence, leftmost first. *)
Definition replace (old new s : list ascii) : list ascii :=
  sub_from (match_literal old) new s 0.

(** The fragment of [re] syntax the scripts use: escaped literals and the
    lazy stars [.*?] and [[\s\S]*?]. *)
Inductive char_class := NotNewline | AnyChar.

Inductive re_item :=
| Chr (c : ascii)
| StarLazy (k : char_class).

Definition in_class (k : char_class) (c : ascii) : bool :=
  match k with
  | NotNewline => negb (Ascii.eqb c LF)
  | AnyChar => true
  end.

Definition re_lit (p : list ascii) : list re_item := map Chr p.

(** [.] without flags, and under [re.DOTALL]. *)
Definition dot_star_lazy : list re_item := [StarLazy NotNewline].
Definition dotall_star_lazy : list re_item := [StarLazy AnyChar].

(** Backtracking match of a pattern at the start of [s]: the span of the
    first match in priority order (a lazy star tries fewer repetitions
    first). *)
Fixpoint re_match (r : list re_item) (s : list ascii) {struct r} : option nat :=
  match r with
  | [] => Some 0
  | Chr c :: r' =>
    match s with
    | a :: s' => if Ascii.eqb c a then option_map S (re_match r' s') else None
    | [] => None
    end
  | StarLazy k :: r' =>
    (fix lazy (s : list ascii) : option nat :=
       match re_match r' s with
       | Some n => Some n
       | None =>
         match s with
         | a :: s' => if in_class k a then option_map S (lazy s') else None
         | [] => None
         end
       end) s
  end.

(** [re.sub(pattern, repl, s)] for a replacement without group references. *)
Definition re_sub (r : list re_item) (repl s : list ascii) : list ascii :=
  sub_from (re_match r) repl s 0.

(** [re.sub('(' + p + ')', prefix + r'\1', s)] for a literal [p]: group 1 is
    the matched text, that is [p] itself. *)
Definition re_sub_before (p prefix s : list ascii) : list ascii :=
  re_sub (re_lit p) (prefix ++ p) s.

(** [s.split('\n')]. *)
Fixpoint split_nl (s : list ascii) : list (list ascii) :=
  match s with
  | [] => [[]]
  | c :: s' =>
    if Ascii.eqb c LF then [] :: split_nl s'
    else match split_nl s' with
         | l :: ls => (c :: l) :: ls
         | [] => [[c]]
         end
  end.

(** [f.readlines()] on the decoded text: lines keep their line feed. *)
Fixpoint readlines (s : list ascii) : list (list ascii) :=
  match s with
  | [] => []
  | c :: s' =>
    if Ascii.eqb c LF then [c] :: readlines s'
    else match readlines s' with
         | l :: ls => (c :: l) :: ls
         | [] => [[c]]
         end
  end.

(** The loop [for i, line in enumerate(lines): if p(line): lines.insert(i + 1, x); break]. *)
Fixpoint insert_after_first (p : list ascii -> bool) (x : list ascii)
    (lines : list (list ascii)) : list (list ascii) :=
  match lines with
  | [] => []
  | l :: ls => if p l then l :: x :: ls else l :: insert_after_first p x ls
  end.

(** [s.find(p)], with [None] for -1. *)
Fixpoint find (p s : list ascii) : option nat :=
  if startswith s p then Some 0
  else match s with
       | [] => None
       | _ :: s' => option_map S (find p s')
       end.

(** Whether the matcher [m] answers at some position of [s], the end
    included. *)
Fixpoint anywhere (m : list ascii -> option nat) (s : list ascii) : bool :=
  match m s with
  | Some _ => true
  | None =>
    match s with
    | [] => false
    | _ :: s' => anywhere m s'
    end
  end.

(** [re.search(r, s) is not None]. *)
Definition re_search (r : list re_item) (s : list ascii) : bool :=
  anywhere (re_match r) s.

(** One of [x], [y] is a prefix of the other. *)
Definition compat (x y : list ascii) : bool := startswith x y || startswith y x.

(** A replacement [new] that cannot take part in an occurrence of [old]:
    no occurrence of [old] can start inside [new], and none that starts
    before [new] can run into it. *)
Definition border_free (old new : list ascii) : bool :=
  match old, new with
  | _ :: _, _ :: _ =>
    forallb (fun i => negb (compat old (skipn i new))) (seq 0 (length new)) &&
    forallb (fun k => negb (compat (skipn k old) new)) (seq 1 (length old - 1))
  | _, _ => false
  end.

(** The number of line feeds of a text. *)
Fixpoint count_lf (s : list ascii) : nat :=
  match s with
  | [] => 0
  | c :: s' => (if Ascii.eqb c LF then 1 else 0) + count_lf s'
  end.

End Py.

(* ===================================================================== *)
(** ** Files, text-mode input and output, exceptions                      *)
(* ===================================================================== *)

Module Io.

Import Py.

(** The platform decides [os.linesep] and [os.sep]. *)
Inductive platform := Posix | Windows.

Definition linesep (os : platform) : list ascii :=
  match os with
  | Posix => [LF]
  | Windows => [CR; LF]
  end.

Definition path_join (os : platform) (dir name : string) : string :=
  match os with
  | Posix => dir +:+ "/" +:+ name
  | Windows => dir +:+ "\" +:+ name
  end.

(** The store maps a path to the text of a file that can be opened and
    decoded; a path without entry is a file whose [open] or [read] raises.
    [writes] lists the paths written, oldest first; [stdout] and [stderr]
    hold what was printed. *)
Record world := World {
  files : gmap string (list ascii);
  writes : list string;
  stdout : list (list ascii);
  stderr : list (list ascii)
}.

Inductive exn :=
| FileNotFoundError (path : string).

Inductive result (A : Type) :=
| Ok (a : A)
| Raise (e : exn).
Arguments Ok {A} a.
Arguments Raise {A} e.

(** Computations that read and update the world and may raise. *)
Definition M (A : Type) : Type := world -> result A * world.

#[global] Instance M_ret : MRet M := fun A a w => (Ok a, w).
#[global] Instance M_bind : MBind M := fun A B k c w =>
  match c w with
  | (Ok a, w') => k a w'
  | (Raise e, w') => (Raise e, w')
  end.

(** Reading in text mode with [newline=None]: [\r\n] and a lone [\r] both
    arrive as [\n]. *)
Fixpoint universal_newlines (s : list ascii) : list ascii :=
  match s with
  | [] => []
  | c :: s' =>
    if Ascii.eqb c CR then
      match s' with
      | d :: s'' => if Ascii.eqb d LF then LF :: universal_newlines s''
                    else LF :: universal_newlines s'
      | [] => [LF]
      end
    else c :: universal_newlines s'
  end.

(** Writing in text mode with [newline=None]: each [\n] leaves as
    [os.linesep]. *)
Fixpoint translate_out (os : platform) (s : list ascii) : list ascii :=
  match s with
  | [] => []
  | c :: s' =>
    if Ascii.eqb c LF then linesep os ++ translate_out os s'
    else c :: translate_out os s'
  end.

(** [with open(path, 'r', encoding='utf-8') as f: f.read()]. *)
Definition read_text (path : string) : M (list ascii) := fun w =>
  match files w !! path with
  | Some bytes => (Ok (universal_newlines bytes), w)
  | None => (Raise (FileNotFoundError path), w)
  end.

(** [with open(path, 'w', encoding='utf-8') as f: f.write(content)]. *)
Definition write_text (os : platform) (path : string) (content : list ascii)
  : M unit := fun w =>
  (Ok tt, World (<[path := translate_out os content]> (files w))
                (writes w ++ [path]) (stdout w) (stderr w)).

(** [print(msg)]. *)
Definition print (msg : list ascii) : M unit := fun w =>
  (Ok tt, World (files w) (writes w) (stdout w ++ [msg]) (stderr w)).

(** [traceback.print_exc()]: the trace goes to the error stream. *)
Definition print_exc (e : exn) : M unit := fun w =>
  (Ok tt, World (files w) (writes w) (stdout w)
                (stderr w ++ [lit "Traceback (most recent call last):"])).

(** [str(e)]. *)
Definition exn_message (e : exn) : list ascii :=
  match e with
  | FileNotFoundError path =>
    lit "[Errno 2] No such file or directory: '" ++ lit path ++ lit "'"
  end.

(** A script body run at top level: the status the interpreter exits with
    is 0 when the body ends normally and 1 when an exception leaves it. *)
Definition run_script (body : M unit) (w : world) : Z * world :=
  match body w with
  | (Ok _, w') => (0%Z, w')
  | (Raise e, w') => (1%Z, snd (print_exc e w'))
  end.

(** [try: body except Exception as e: handler(e)]. *)
Definition try_except (body : M unit) (handler : exn -> M unit) : M unit :=
  fun w =>
  match body w with
  | (Ok a, w') => (Ok a, w')
  | (Raise e, w') => handler e w'
  end.

(** The shape every [update_*] function has: read, edit in memory, write
    back, report. *)
Definition patch_file (os : platform) (path : string)
    (edits : list ascii -> list ascii) (msg : list ascii) : M unit :=
  content ← read_text path;
  write_text os path (edits content);;
  print msg.

(** A world with no file and nothing printed. *)
Definition empty_world : world := World ∅ [] [] [].

(** The world [w] with the file [path] holding [content]. *)
Definition with_file (path : string) (content : list ascii) (w : world) : world :=
  World (<[path := content]> (files w)) (writes w) (stdout w) (stderr w).

End Io.

(* ===================================================================== *)
(** ** apply_platform_refactor.py                                         *)
(* ===================================================================== *)

Module ApplyPlatformRefactor.

Import Py Io.

Definition BASE_DIR : string := "src-tauri/src/commands/claude".

Definition cfg_windows : list ascii :=
  lit "#[cfg(target_os = " ++ dq ++ lit "windows" ++ dq ++ lit ")]".
Definition cfg_not_windows : list ascii :=
  lit "#[cfg(not(target_os = " ++ dq ++ lit "windows" ++ dq ++ lit "))]".

(** *** update_cli_runner *)

Definition cli_import_old : list ascii :=
  lit "use super::config::get_claude_execution_config;".
Definition cli_import_new : list ascii :=
  join nl [lit "use super::config::get_claude_execution_config;";
           lit "use super::platform;"].

Definition cli_call_old : list ascii := lit "resolve_cmd_wrapper_tokio(program)".
Definition cli_call_new : list ascii := lit "platform::resolve_cmd_wrapper(program)".

Definition cli_wrapper_pattern : list re_item :=
  re_lit (lit "/// Windows-specific: Resolve .cmd wrapper")
  ++ dot_star_lazy
  ++ re_lit (nl ++ cfg_windows ++ nl ++
             lit "fn resolve_cmd_wrapper_tokio(cmd_path: &str) -> Option<(String, String)> {")
  ++ [StarLazy AnyChar]
  ++ re_lit (join nl
       [lit "    None";
        lit "}";
        [];
        cfg_not_windows;
        lit "fn resolve_cmd_wrapper_tokio(_cmd_path: &str) -> Option<(String, String)> {";
        lit "    None";
        lit "}";
        []]).

Definition cli_flags_old : list ascii :=
  join nl
    [lit "    // On Windows, ensure the command runs without creating a console window";
     lit "    " ++ cfg_windows;
     lit "    cmd.creation_flags(0x08000000); // CREATE_NO_WINDOW"].
Definition cli_flags_new : list ascii :=
  join nl
    [lit "    // Apply platform-specific no-window configuration";
     lit "    platform::apply_no_window_async(&mut cmd);"].

(** The four edits of [update_cli_runner], in order. *)
Definition cli_runner_edits (content : list ascii) : list ascii :=
  let content := replace cli_import_old cli_import_new content in
  let content := replace cli_call_old cli_call_new content in
  let content := re_sub cli_wrapper_pattern [] content in
  let content := re_sub (re_lit cli_flags_old) cli_flags_new content in
  content.

Definition update_cli_runner (os : platform) : M unit :=
  let filepath := path_join os BASE_DIR "cli_runner.rs" in
  content ← read_text filepath;
  write_text os filepath (cli_runner_edits content);;
  print (lit "Updated cli_runner.rs").

(** *** update_config *)

Definition platform_import : list ascii := lit "use super::platform;".
Definition paths_import_old : list ascii := lit "use super::paths::get_claude_dir;".
Definition paths_import_new : list ascii :=
  join nl [lit "use super::paths::get_claude_dir;"; lit "use super::platform;"].

Definition add_platform_import (content : list ascii) : list ascii :=
  if negb (contains platform_import content)
  then replace paths_import_old paths_import_new content
  else content.

Definition config_flags_old : list ascii :=
  lit "        cmd.creation_flags(0x08000000); // CREATE_NO_WINDOW".
Definition config_flags_new : list ascii :=
  lit "        platform::apply_no_window(&mut cmd);".

Definition config_edits (content : list ascii) : list ascii :=
  let content := add_platform_import content in
  re_sub (re_lit config_flags_old) config_flags_new content.

Definition update_config (os : platform) : M unit :=
  let filepath := path_join os BASE_DIR "config.rs" in
  content ← read_text filepath;
  write_text os filepath (config_edits content);;
  print (lit "Updated config.rs").

(** *** update_hooks *)

Definition hooks_flags_old : list ascii :=
  join nl
    [lit "    // Add CREATE_NO_WINDOW flag on Windows to prevent terminal window popup";
     lit "    " ++ cfg_windows;
     lit "    {";
     lit "        cmd.creation_flags(0x08000000); // CREATE_NO_WINDOW";
     lit "    }"].
Definition hooks_flags_new : list ascii :=
  join nl
    [lit "    // Apply platform-specific no-window configuration";
     lit "    platform::apply_no_window(&mut cmd);"].

Definition hooks_edits (content : list ascii) : list ascii :=
  let content := add_platform_import content in
  re_sub (re_lit hooks_flags_old) hooks_flags_new content.

Definition update_hooks (os : platform) : M unit :=
  let filepath := path_join os BASE_DIR "hooks.rs" in
  content ← read_text filepath;
  write_text os filepath (hooks_edits content);;
  print (lit "Updated hooks.rs").

(** *** update_prompt_enhancer *)

Definition insert_platform_import (content : list ascii) : list ascii :=
  if negb (contains platform_import content)
  then join nl (insert_after_first (fun line => startswith line (lit "use super::"))
                                   platform_import (split_nl content))
  else content.

Definition prompt_enhancer_edits (content : list ascii) : list ascii :=
  let content := insert_platform_import content in
  let content :=
    re_sub (re_lit (lit "        command.creation_flags(0x08000000); // CREATE_NO_WINDOW flag"))
           (lit "        platform::apply_no_window(&mut command);") content in
  let content :=
    re_sub (re_lit (lit "            cmd.creation_flags(0x08000000); // CREATE_NO_WINDOW flag"))
           (lit "            platform::apply_no_window(&mut cmd);") content in
  let content :=
    re_sub (re_lit (lit "        npm_cmd.creation_flags(0x08000000); // CREATE_NO_WINDOW flag"))
           (lit "        platform::apply_no_window(&mut npm_cmd);") content in
  content.

Definition update_prompt_enhancer (os : platform) : M unit :=
  let filepath := path_join os BASE_DIR "prompt_enhancer.rs" in
  content ← read_text filepath;
  write_text os filepath (prompt_enhancer_edits content);;
  print (lit "Updated prompt_enhancer.rs").

(** *** update_mod *)

Definition find_binary_pattern : list re_item :=
  re_lit (lit "/// Finds the full path to the claude binary")
  ++ dotall_star_lazy
  ++ re_lit (join nl
       [[];
        lit "fn find_claude_binary(app_handle: &AppHandle) -> Result<String, String> {";
        lit "    crate::claude_binary::find_claude_binary(app_handle)";
        lit "}";
        []]).

Definition mod_edits (content : list ascii) : list ascii :=
  let content :=
    if negb (contains (lit "mod platform;") content)
    then replace (lit "mod session_history;")
                 (join nl [lit "mod session_history;"; lit "mod platform;";
                           lit "mod file_ops;"]) content
    else content in
  let content :=
    replace (lit "use self::project_store::ProjectStore;")
            (join nl [lit "use self::project_store::ProjectStore;";
                      lit "pub use file_ops::{list_directory_contents, search_files};"])
            content in
  re_sub find_binary_pattern [] content.

Definition update_mod (os : platform) : M unit :=
  let filepath := path_join os BASE_DIR "mod.rs" in
  content ← read_text filepath;
  write_text os filepath (mod_edits content);;
  print (lit "Updated mod.rs").

(** *** The job sequence of [__main__] *)

Definition jobs (os : platform) : list (M unit) :=
  [update_cli_runner os; update_config os; update_hooks os;
   update_prompt_enhancer os; update_mod os].

(** Statements run one after the other; an exception skips the rest. *)
Fixpoint run_jobs (js : list (M unit)) : M unit :=
  match js with
  | [] => mret tt
  | j :: js' => j;; run_jobs js'
  end.

Definition report_success : M unit :=
  print (nl ++ lit "=== All files updated successfully ===");;
  print (nl ++ lit "Next steps:");;
  print (lit "1. Run: cd src-tauri && cargo check");;
  print (lit "2. Fix any remaining compilation errors");;
  print (lit "3. Test the application").

Definition report_error (e : exn) : M unit :=
  print (lit "Error: " ++ exn_message e);;
  print_exc e.

Definition main_body (os : platform) : M unit :=
  try_except (run_jobs (jobs os);; report_success) report_error.

(** The exit status of the script and the world it leaves. *)
Definition main (os : platform) (w : world) : Z * world :=
  run_script (main_body os) w.

End ApplyPlatformRefactor.

(* ===================================================================== *)
(** ** src-tauri/fix_utf8.py                                              *)
(* ===================================================================== *)

Module FixUtf8.

Import Py Io.

(** The Rust text of [TRUNCATE_FUNCTION] (its behaviour is [Rust.truncate_utf8_safe]). *)
Definition TRUNCATE_FUNCTION : list ascii :=
  join nl
    [[];
     lit "/// UTF-8 安全的字符串截断函数";
     lit "/// 如果 max_bytes 不在字符边界上，会向前寻找最近的边界，防止 panic";
     lit "fn truncate_utf8_safe(s: &str, max_bytes: usize) -> &str {";
     lit "    if s.len() <= max_bytes {";
     lit "        return s;";
     lit "    }";
     [];
     lit "    // 从 max_bytes 开始向前查找字符边界";
     lit "    let mut index = max_bytes;";
     lit "    while index > 0 && !s.is_char_boundary(index) {";
     lit "        index -= 1;";
     lit "    }";
     [];
     lit "    if index == 0 {";
     lit "        // 极端情况：第一个字符就超过 max_bytes";
     lit "        // 返回第一个字符的边界";
     lit "        s.char_indices()";
     lit "            .next()";
     lit "            .map(|(_, ch)| &s[..ch.len_utf8()])";
     lit "            .unwrap_or(" ++ dq ++ dq ++ lit ")";
     lit "    } else {";
     lit "        &s[..index]";
     lit "    }";
     lit "}";
     [];
     []].

Definition helper_marker : list ascii := lit "fn truncate_utf8_safe".

(** *** fix_claude_rs *)

Definition enhance_prompt_anchor : list ascii :=
  join nl
    [[];
     [];
     lit "/// Enhance a prompt using local Claude  Code CLI";
     lit "#[tauri::command]";
     lit "pub async fn enhance_prompt("].

Definition prompt_slice_old : list ascii := lit "&trimmed_prompt[..MAX_PROMPT_LENGTH]".
Definition prompt_slice_new : list ascii :=
  lit "truncate_utf8_safe(trimmed_prompt, MAX_PROMPT_LENGTH)".
Definition context_slice_old : list ascii := lit "&context_str[..MAX_CONTEXT_LENGTH]".
Definition context_slice_new : list ascii :=
  lit "truncate_utf8_safe(&context_str, MAX_CONTEXT_LENGTH)".

Definition add_helper (anchor content : list ascii) : list ascii :=
  if negb (contains helper_marker content)
  then re_sub_before anchor TRUNCATE_FUNCTION content
  else content.

Definition fix_prompt_slice (content : list ascii) : list ascii :=
  re_sub (re_lit prompt_slice_old) prompt_slice_new content.
Definition fix_context_slice (content : list ascii) : list ascii :=
  re_sub (re_lit context_slice_old) context_slice_new content.

Definition claude_edits (content : list ascii) : list ascii :=
  fix_context_slice (fix_prompt_slice (add_helper enhance_prompt_anchor content)).

Definition fix_claude_rs (os : platform) : M unit :=
  let file_path := "src/commands/claude.rs" in
  content ← read_text file_path;
  (if negb (contains helper_marker content)
   then print (lit "[OK] 已在 claude.rs 中添加 truncate_utf8_safe 函数")
   else print (lit "[OK] claude.rs 中已存在 truncate_utf8_safe 函数"));;
  print (lit "[OK] 已修复 claude.rs 中的第一处切片（trimmed_prompt）");;
  print (lit "[OK] 已修复 claude.rs 中的第二处切片（context_str）");;
  write_text os file_path (claude_edits content);;
  print (lit "[SUCCESS] claude.rs 修复完成").

(** *** fix_acemcp_rs *)

Definition enhance_context_anchor : list ascii :=
  join nl
    [[];
     lit "#[tauri::command]";
     lit "pub async fn enhance_prompt_with_context("].

Definition result_slice_old : list ascii := lit "&context_result[..max_length]".
Definition result_slice_new : list ascii :=
  lit "truncate_utf8_safe(&context_result, max_length)".
Definition trimmed_slice_old : list ascii := lit "&trimmed_context[..available_space]".
Definition trimmed_slice_new : list ascii :=
  lit "truncate_utf8_safe(&trimmed_context, available_space)".

Definition fix_result_slice (content : list ascii) : list ascii :=
  re_sub (re_lit result_slice_old) result_slice_new content.
Definition fix_trimmed_slice (content : list ascii) : list ascii :=
  re_sub (re_lit trimmed_slice_old) trimmed_slice_new content.

Definition acemcp_edits (content : list ascii) : list ascii :=
  fix_trimmed_slice (fix_result_slice (add_helper enhance_context_anchor content)).

Definition fix_acemcp_rs (os : platform) : M unit :=
  let file_path := "src/commands/acemcp.rs" in
  content ← read_text file_path;
  (if negb (contains helper_marker content)
   then print (lit "[OK] 已在 acemcp.rs 中添加 truncate_utf8_safe 函数")
   else print (lit "[OK] acemcp.rs 中已存在 truncate_utf8_safe 函数"));;
  print (lit "[OK] 已修复 acemcp.rs 中的第一处切片（context_result）");;
  print (lit "[OK] 已修复 acemcp.rs 中的第二处切片（trimmed_context）");;
  write_text os file_path (acemcp_edits content);;
  print (lit "[SUCCESS] acemcp.rs 修复完成").

(** *** [__main__] *)

Definition banner : list ascii := repeat "="%char 60.

Definition report_error (e : exn) : M unit :=
  print (nl ++ lit "[ERROR] 修复失败: " ++ exn_message e);;
  print_exc e.

Definition main_body (os : platform) : M unit :=
  print banner;;
  print (lit "开始修复 UTF-8 字符串切片问题...");;
  print banner;;
  print [];;
  try_except
    (fix_claude_rs os;;
     print [];;
     fix_acemcp_rs os;;
     print [];;
     print banner;;
     print (lit "[SUCCESS] 所有修复完成！");;
     print banner)
    report_error.

Definition main (os : platform) (w : world) : Z * world :=
  run_script (main_body os) w.

End FixUtf8.

(* ===================================================================== *)
(** ** src-tauri/src/process/fix_mutex.py                                 *)
(* ===================================================================== *)

Module FixMutex.

Import Py Io.

Definition new_block : list ascii :=
  join nl
    [lit "        // First, collect all process IDs (lock released immediately)";
     lit "        let run_ids: Vec<i64> = {";
     lit "            let processes = processes_lock.lock().map_err(|e| e.to_string())?;";
     lit "            processes.keys().cloned().collect()";
     lit "        }; // ✅ Lock is released here, before any await points";
     [];
     lit "        // Then check each process (no lock held during async operations)";
     lit "        for run_id in run_ids {";
     lit "            if !self.is_process_running(run_id).await? {";
     lit "                finished_runs.push(run_id);";
     lit "            }";
     lit "        }";
     [];
     []].

(** [lines[:628] + [new_block] + lines[640:]]. *)
Definition replace_block (lines : list (list ascii)) : list (list ascii) :=
  firstn 628 lines ++ [new_block] ++ skipn 640 lines.

(** From the text read to the text written: [readlines], the slice
    surgery, [writelines]. *)
Definition mutex_edits (content : list ascii) : list ascii :=
  concat (replace_block (readlines content)).

Definition script_body (os : platform) : M unit :=
  content ← read_text "registry.rs";
  write_text os "registry.rs" (mutex_edits content);;
  print (lit "Successfully fixed Mutex deadlock issue").

Definition main (os : platform) (w : world) : Z * world :=
  run_script (script_body os) w.

End FixMutex.

(* ===================================================================== *)
(** ** Chains of substitutions                                            *)
(* ===================================================================== *)

(** Vocabulary for the edits that are a sequence of literal substitutions
    applied one after the other. *)

Module Chain.

Import Py.

(** The substitutions [(old, new)] of [rs] applied in order. *)
Fixpoint apply_all (rs : list (list ascii * list ascii)) (s : list ascii)
  : list ascii :=
  match rs with
  | [] => s
  | (old, new) :: rs' => apply_all rs' (replace old new s)
  end.

(** No replacement of the chain can overlap the text [x]. *)
Definition silent (x : list ascii) (rs : list (list ascii * list ascii)) : bool :=
  forallb (fun r => border_free x (snd r)) rs.

(** No pattern of the chain can overlap the text [g]. *)
Definition keeps (g : list ascii) (rs : list (list ascii * list ascii)) : bool :=
  forallb (fun r => border_free (fst r) g) rs.

(** Each pattern can overlap neither its own replacement nor a later one. *)
Fixpoint chain_ok (rs : list (list ascii * list ascii)) : bool :=
  match rs with
  | [] => true
  | (old, new) :: rs' => border_free old new && silent old rs' && chain_ok rs'
  end.

(** An insertion of [payload] at [anchor] made only where the buffer does
    not hold [guard] yet, the shape of [add_platform_import] and
    [add_helper]. *)
Definition guarded_insert (guard anchor payload content : list ascii) : list ascii :=
  if negb (contains guard content)
  then replace anchor payload content
  else content.

(** A line that ends with its line feed and holds no other. *)
Definition complete_line (l : list ascii) : Prop :=
  exists body, l = body ++ [LF] /\ ~ In LF body.

(** Whether some line of [s] starts with [x], in the way
    [update_prompt_enhancer] looks for it. *)
Definition has_line (x s : list ascii) : bool :=
  existsb (fun line => startswith line x) (split_nl s).

(** The substitutions of [update_prompt_enhancer], [fix_claude_rs] and
    [fix_acemcp_rs] as chains. *)
Definition prompt_chain : list (list ascii * list ascii) :=
  [(lit "        command.creation_flags(0x08000000); // CREATE_NO_WINDOW flag",
    lit "        platform::apply_no_window(&mut command);");
   (lit "            cmd.creation_flags(0x08000000); // CREATE_NO_WINDOW flag",
    lit "            platform::apply_no_window(&mut cmd);");
   (lit "        npm_cmd.creation_flags(0x08000000); // CREATE_NO_WINDOW flag",
    lit "        platform::apply_no_window(&mut npm_cmd);")].

(** The prefix [update_prompt_enhancer] looks for at the start of a line. *)
Definition use_super : list ascii := lit "use super::".

Definition claude_chain : list (list ascii * list ascii) :=
  [(FixUtf8.prompt_slice_old, FixUtf8.prompt_slice_new);
   (FixUtf8.context_slice_old, FixUtf8.context_slice_new)].

Definition acemcp_chain : list (list ascii * list ascii) :=
  [(FixUtf8.result_slice_old, FixUtf8.result_slice_new);
   (FixUtf8.trimmed_slice_old, FixUtf8.trimmed_slice_new)].

End Chain.

(* ===================================================================== *)
(** ** The files of a run                                                 *)
(* ===================================================================== *)

Module Runs.

Import Io.

(** The five files of [apply_platform_refactor.py], in job order. *)
Definition job_paths (os : platform) : list string :=
  map (path_join os ApplyPlatformRefactor.BASE_DIR)
      ["cli_runner.rs"; "config.rs"; "hooks.rs"; "prompt_enhancer.rs"; "mod.rs"].

(** The two files of [fix_utf8.py] and the file of [fix_mutex.py]. *)
Definition claude_rs : string := "src/commands/claude.rs".
Definition acemcp_rs : string := "src/commands/acemcp.rs".
Definition registry_rs : string := "registry.rs".

(** What a job writes for the bytes it read. *)
Definition written (os : platform) (edits : list ascii -> list ascii)
    (bytes : list ascii) : list ascii :=
  translate_out os (edits (universal_newlines bytes)).

(** A step from [w] to [w'] that only printed. *)
Definition only_said (w w' : world) : Prop :=
  files w' = files w /\ writes w' = writes w /\ stderr w' = stderr w.

(** Nothing but the files at [paths] differs between [w] and [w'], and no
    file appeared or disappeared. *)
Definition touches_only (paths : list string) (w w' : world) : Prop :=
  dom (files w') = dom (files w) /\
  forall q, ~ In q paths -> files w' !! q = files w !! q.

End Runs.

(* ===================================================================== *)
(** ** The models on the scenarios of the specification                   *)
(* ===================================================================== *)

Example truncate_a_emoji_b :
  Rust.truncate_utf8_safe (Rust.str_of [0x61; 0x1F600; 0x62]%Z) 2 = Some [0x61%Z].
Proof. reflexivity. Qed.

Example truncate_emoji_1 :
  Rust.truncate_utf8_safe (Rust.str_of [0x1F600]%Z) 1
  = Some [0xF0; 0x9F; 0x98; 0x80]%Z.
Proof. reflexivity. Qed.

Example replace_all_occurrences :
  Py.replace (Py.lit "ab") (Py.lit "X") (Py.lit "ababcab") = Py.lit "XXcX".
Proof. reflexivity. Qed.

Example replace_empty_pattern :
  Py.replace [] (Py.lit "-") (Py.lit "abc") = Py.lit "-a-b-c-".
Proof. reflexivity. Qed.

Example lazy_star_stops_early :
  Py.re_sub (Py.re_lit (Py.lit "<") ++ Py.dot_star_lazy ++ Py.re_lit (Py.lit ">"))
            (Py.lit "_") (Py.lit "a<b>c>d<e>")
  = Py.lit "a_c>d_".
Proof. reflexivity. Qed.

Example readlines_keeps_ends :
  Py.readlines (Py.lit "a" ++ Py.nl ++ Py.nl ++ Py.lit "b")
  = [Py.lit "a" ++ Py.nl; Py.nl; Py.lit "b"].
Proof. reflexivity. Qed.

Example new_block_is_thirteen_lines :
  length (Py.readlines FixMutex.new_block) = 13.
Proof. vm_compute. reflexivity. Qed.

(* ===================================================================== *)
(** ** Bytes of an encoded character *)
(* ===================================================================== *)

Section Bits.
Local Open Scope Z_scope.

Lemma lor_tag (k t lo : Z) :
  0 <= k -> 0 <= lo < 2 ^ k -> Z.lor (t * 2 ^ k) lo = t * 2 ^ k + lo.
Proof.
  intros Hk Hlo.
  assert (Hland : Z.land (t * 2 ^ k) lo = 0).
  { apply Z.bits_inj'; intros n Hn.
    rewrite Z.land_spec, Z.bits_0.
    destruct (Z.lt_ge_cases n k) as [Hlt | Hge].
    - rewrite Z.mul_pow2_bits_low by lia. reflexivity.
    - rewrite <- (Z.mod_small lo (2 ^ k)) by lia.
      rewrite Z.mod_pow2_bits_high by lia. apply andb_false_r. }
  rewrite <- Z.lxor_lor by exact Hland.
  symmetry. apply Z.add_nocarry_lxor. exact Hland.
Qed.

Lemma land_mask (x k : Z) : 0 <= k -> Z.land x (Z.ones k) = x mod 2 ^ k.
Proof. intros. apply Z.land_ones. assumption. Qed.

Lemma tag_byte (x tag k t : Z) :
  0 <= k -> tag = t * 2 ^ k -> 0 <= x < 2 ^ k -> Z.lor x tag = tag + x.
Proof. intros Hk -> Hx. rewrite Z.lor_comm. apply lor_tag; assumption. Qed.

Lemma acc_cont (ch b : Z) :
  Rust.utf8_acc_cont_byte ch b = ch * 64 + b mod 64.
Proof.
  unfold Rust.utf8_acc_cont_byte, Rust.CONT_MASK.
  change 0x3F with (Z.ones 6). rewrite land_mask by lia.
  rewrite Z.shiftl_mul_pow2 by lia.
  change (2 ^ 6) with 64.
  apply (lor_tag 6 ch (b mod 64)); [lia|].
  change (2 ^ 6) with 64. apply Z.mod_pos_bound. lia.
Qed.

Lemma first_byte_2 (x : Z) : Rust.utf8_first_byte x 2 = x mod 32.
Proof.
  unfold Rust.utf8_first_byte. change (Z.shiftr 0x7F 2) with (Z.ones 5).
  apply land_mask. lia.
Qed.


(** The bytes [encode_utf8] produces, in arithmetic form. *)

Ltac mask_to_mod :=
  change 0x3F with (Z.ones 6); change 0x1F with (Z.ones 5);
  change 0x0F with (Z.ones 4); change 0x07 with (Z.ones 3);
  rewrite ?land_mask by lia;
  rewrite ?Z.shiftr_div_pow2 by lia;
  change (2 ^ 3) with 8; change (2 ^ 4) with 16; change (2 ^ 5) with 32;
  change (2 ^ 6) with 64; change (2 ^ 12) with 4096;
  change (2 ^ 18) with 262144.

Lemma encode_utf8_arith_eq (c : Z) :
  0 <= c <= 0x10FFFF -> Rust.encode_utf8 c = Rust.encode_arith c.
Proof.
  intros Hc. unfold Rust.encode_utf8, Rust.len_utf8, Rust.encode_arith.
  unfold Rust.TAG_CONT, Rust.TAG_TWO_B, Rust.TAG_THREE_B, Rust.TAG_FOUR_B.
  destruct (c <? 0x80) eqn:H1; [reflexivity|].
  apply Z.ltb_ge in H1.
  assert (Hc64 : 0 <= c mod 64 < 64) by (apply Z.mod_pos_bound; lia).
  assert (Hd64 : 0 <= (c / 64) mod 64 < 64) by (apply Z.mod_pos_bound; lia).
  assert (Hd4096 : 0 <= (c / 4096) mod 64 < 64) by (apply Z.mod_pos_bound; lia).
  destruct (c <? 0x800) eqn:H2; [apply Z.ltb_lt in H2 | apply Z.ltb_ge in H2].
  { mask_to_mod.
    assert (0 <= c / 64 < 32) by (split; [apply Z.div_pos | apply Z.div_lt_upper_bound]; lia).
    rewrite (Z.mod_small (c / 64) 32) by lia.
    rewrite (tag_byte (c / 64) 0xC0 6 3) by (reflexivity || lia).
    rewrite (tag_byte (c mod 64) 0x80 6 2) by (reflexivity || (change (2 ^ 6) with 64; lia)).
    reflexivity. }
  destruct (c <? 0x10000) eqn:H3; [apply Z.ltb_lt in H3 | apply Z.ltb_ge in H3].
  { mask_to_mod.
    assert (0 <= c / 4096 < 16) by (split; [apply Z.div_pos | apply Z.div_lt_upper_bound]; lia).
    rewrite (Z.mod_small (c / 4096) 16) by lia.
    rewrite (tag_byte (c / 4096) 0xE0 5 7) by (reflexivity || lia).
    rewrite (tag_byte ((c / 64) mod 64) 0x80 6 2) by (reflexivity || (change (2 ^ 6) with 64; lia)).
    rewrite (tag_byte (c mod 64) 0x80 6 2) by (reflexivity || (change (2 ^ 6) with 64; lia)).
    reflexivity. }
  mask_to_mod.
  assert (0 <= c / 262144 < 8) by (split; [apply Z.div_pos | apply Z.div_lt_upper_bound]; lia).
  rewrite (Z.mod_small (c / 262144) 8) by lia.
  rewrite (tag_byte (c / 262144) 0xF0 4 15) by (reflexivity || lia).
  rewrite (tag_byte ((c / 4096) mod 64) 0x80 6 2) by (reflexivity || (change (2 ^ 6) with 64; lia)).
  rewrite (tag_byte ((c / 64) mod 64) 0x80 6 2) by (reflexivity || (change (2 ^ 6) with 64; lia)).
  rewrite (tag_byte (c mod 64) 0x80 6 2) by (reflexivity || (change (2 ^ 6) with 64; lia)).
  reflexivity.
Qed.


Lemma mod_add_tag (tag m x : Z) :
  0 < m -> tag mod m = 0 -> 0 <= x < m -> (tag + x) mod m = x.
Proof.
  intros Hm Htag Hx.
  pose proof (Z.div_mod tag m ltac:(lia)) as E. rewrite Htag in E.
  replace (tag + x) with (x + tag / m * m) by lia.
  rewrite Z.mod_add by lia. apply Z.mod_small. assumption.
Qed.

Lemma decode_two (a r : Z) (t : list Z) :
  2 <= a < 32 -> 0 <= r < 64 ->
  Rust.next_code_point ([192 + a; 128 + r] ++ t) = Some (a * 64 + r).
Proof.
  intros Ha Hr. unfold Rust.next_code_point. cbn [app]. cbv beta iota zeta.
  destruct (Z.ltb_spec (192 + a) 128); [lia|].
  destruct (Z.leb_spec 0xE0 (192 + a)); [lia|].
  rewrite first_byte_2, acc_cont.
  rewrite (mod_add_tag 192 32 a), (mod_add_tag 128 64 r) by (reflexivity || lia).
  reflexivity.
Qed.

Lemma decode_three (a b r : Z) (t : list Z) :
  0 <= a < 16 -> 0 <= b < 64 -> 0 <= r < 64 ->
  Rust.next_code_point ([224 + a; 128 + b; 128 + r] ++ t)
  = Some (a * 4096 + b * 64 + r).
Proof.
  intros Ha Hb Hr. unfold Rust.next_code_point. cbn [app]. cbv beta iota zeta.
  destruct (Z.ltb_spec (224 + a) 128); [lia|].
  destruct (Z.leb_spec 0xE0 (224 + a)); [|lia].
  destruct (Z.leb_spec 0xF0 (224 + a)); [lia|].
  rewrite first_byte_2, acc_cont.
  unfold Rust.CONT_MASK. change 0x3F with (Z.ones 6). rewrite land_mask by lia.
  change (2 ^ 6) with 64.
  rewrite (mod_add_tag 224 32 a), (mod_add_tag 128 64 r) by (reflexivity || lia).
  rewrite !(mod_add_tag 128 64 b) by (reflexivity || lia).
  rewrite Z.shiftl_mul_pow2 by lia.
  rewrite (lor_tag 12 a (b * 64 + r)) by (change (2 ^ 12) with 4096; lia).
  f_equal. change (2 ^ 12) with 4096. lia.
Qed.

Lemma decode_four (a b c r : Z) (t : list Z) :
  0 <= a < 8 -> 0 <= b < 64 -> 0 <= c < 64 -> 0 <= r < 64 ->
  Rust.next_code_point ([240 + a; 128 + b; 128 + c; 128 + r] ++ t)
  = Some (a * 262144 + b * 4096 + c * 64 + r).
Proof.
  intros Ha Hb Hc Hr. unfold Rust.next_code_point. cbn [app]. cbv beta iota zeta.
  destruct (Z.ltb_spec (240 + a) 128); [lia|].
  destruct (Z.leb_spec 0xE0 (240 + a)); [|lia].
  destruct (Z.leb_spec 0xF0 (240 + a)); [|lia].
  rewrite first_byte_2, !acc_cont.
  unfold Rust.CONT_MASK. change 0x3F with (Z.ones 6). change 7 with (Z.ones 3).
  rewrite !land_mask by lia.
  change (2 ^ 6) with 64. change (2 ^ 3) with 8.
  replace ((240 + a) mod 32) with (16 + a)
    by (symmetry; replace (240 + a) with (224 + (16 + a)) by lia;
        apply mod_add_tag; (reflexivity || lia)).
  rewrite (mod_add_tag 16 8 a), (mod_add_tag 128 64 r),
    (mod_add_tag 128 64 c) by (reflexivity || lia).
  rewrite !(mod_add_tag 128 64 b) by (reflexivity || lia).
  rewrite Z.shiftl_mul_pow2 by lia.
  rewrite (lor_tag 18 a ((b * 64 + c) * 64 + r))
    by (change (2 ^ 18) with 262144; lia).
  f_equal. change (2 ^ 18) with 262144. lia.
Qed.

Lemma next_code_point_encode (c : Z) (t : list Z) :
  0 <= c <= 0x10FFFF -> Rust.next_code_point (Rust.encode_utf8 c ++ t) = Some c.
Proof.
  intros Hc. rewrite encode_utf8_arith_eq by assumption. unfold Rust.encode_arith.
  pose proof (Z.div_mod c 64 ltac:(lia)) as E64.
  pose proof (Z.mod_pos_bound c 64 ltac:(lia)) as B64.
  destruct (Z.ltb_spec c 0x80).
  { simpl. destruct (Z.ltb_spec c 128); [reflexivity | lia]. }
  destruct (Z.ltb_spec c 0x800).
  { assert (2 <= c / 64 < 32)
      by (split; [apply Z.div_le_lower_bound | apply Z.div_lt_upper_bound]; lia).
    rewrite decode_two by assumption. f_equal. lia. }
  pose proof (Z.div_mod (c / 64) 64 ltac:(lia)) as E4096.
  pose proof (Z.mod_pos_bound (c / 64) 64 ltac:(lia)) as B4096.
  rewrite Z.div_div in E4096 by lia. change (64 * 64) with 4096 in E4096.
  destruct (Z.ltb_spec c 0x10000).
  { assert (0 <= c / 4096 < 16)
      by (split; [apply Z.div_pos | apply Z.div_lt_upper_bound]; lia).
    rewrite decode_three by assumption. f_equal. lia. }
  pose proof (Z.div_mod (c / 4096) 64 ltac:(lia)) as E18.
  pose proof (Z.mod_pos_bound (c / 4096) 64 ltac:(lia)) as B18.
  rewrite Z.div_div in E18 by lia. change (4096 * 64) with 262144 in E18.
  assert (0 <= c / 262144 < 8)
    by (split; [apply Z.div_pos | apply Z.div_lt_upper_bound]; lia).
  rewrite decode_four by assumption. f_equal. lia.
Qed.

End Bits.

Section Boundaries.

Lemma is_char_range (c : Z) : Rust.is_char c -> (0 <= c <= 0x10FFFF)%Z.
Proof. unfold Rust.is_char. lia. Qed.

Lemma lead_byte_boundary (b : Z) :
  (0 <= b < 128 \/ 192 <= b < 256)%Z -> Rust.is_utf8_char_boundary b = true.
Proof.
  intros Hb. unfold Rust.is_utf8_char_boundary, Rust.as_i8.
  destruct (Z.ltb_spec b 128); apply Z.leb_le; lia.
Qed.

Lemma cont_byte_not_boundary (b : Z) :
  (128 <= b < 192)%Z -> Rust.is_utf8_char_boundary b = false.
Proof.
  intros Hb. unfold Rust.is_utf8_char_boundary, Rust.as_i8.
  destruct (Z.ltb_spec b 128); [lia|]. apply Z.leb_gt. lia.
Qed.

(** An encoded character is one lead byte followed by continuation bytes. *)
Lemma encode_utf8_shape (c : Z) :
  Rust.is_char c ->
  exists b0 rest,
    Rust.encode_utf8 c = b0 :: rest /\
    Rust.is_utf8_char_boundary b0 = true /\
    Forall (fun b => Rust.is_utf8_char_boundary b = false) rest /\
    length (Rust.encode_utf8 c) = Rust.len_utf8 c.
Proof.
  intros Hc. apply is_char_range in Hc.
  rewrite encode_utf8_arith_eq by assumption.
  unfold Rust.encode_arith, Rust.len_utf8.
  assert (B1 : (0 <= c mod 64 < 64)%Z) by (apply Z.mod_pos_bound; lia).
  assert (B2 : (0 <= (c / 64) mod 64 < 64)%Z) by (apply Z.mod_pos_bound; lia).
  assert (B3 : (0 <= (c / 4096) mod 64 < 64)%Z) by (apply Z.mod_pos_bound; lia).
  destruct (Z.ltb_spec c 0x80).
  { eexists _, _. split; [reflexivity|]. repeat split; [|constructor].
    apply lead_byte_boundary. lia. }
  destruct (Z.ltb_spec c 0x800).
  { assert (2 <= c / 64 < 32)%Z
      by (split; [apply Z.div_le_lower_bound | apply Z.div_lt_upper_bound]; lia).
    eexists _, _. split; [reflexivity|]. repeat split.
    - apply lead_byte_boundary. lia.
    - repeat constructor; apply cont_byte_not_boundary; lia. }
  destruct (Z.ltb_spec c 0x10000).
  { assert (0 <= c / 4096 < 16)%Z
      by (split; [apply Z.div_pos | apply Z.div_lt_upper_bound]; lia).
    eexists _, _. split; [reflexivity|]. repeat split.
    - apply lead_byte_boundary. lia.
    - repeat constructor; apply cont_byte_not_boundary; lia. }
  assert (0 <= c / 262144 < 8)%Z
    by (split; [apply Z.div_pos | apply Z.div_lt_upper_bound]; lia).
  eexists _, _. split; [reflexivity|]. repeat split.
  - apply lead_byte_boundary. lia.
  - repeat constructor; apply cont_byte_not_boundary; lia.
Qed.

Lemma len_utf8_pos (c : Z) : 1 <= Rust.len_utf8 c.
Proof. unfold Rust.len_utf8. repeat case_match; lia. Qed.

Lemma str_of_app (cs1 cs2 : list Z) :
  Rust.str_of (cs1 ++ cs2) = Rust.str_of cs1 ++ Rust.str_of cs2.
Proof. unfold Rust.str_of. apply flat_map_app. Qed.

Lemma str_of_cons (c : Z) (cs : list Z) :
  Rust.str_of (c :: cs) = Rust.encode_utf8 c ++ Rust.str_of cs.
Proof. reflexivity. Qed.

Lemma is_char_boundary_shift (p t : list Z) (j : nat) :
  0 < j ->
  Rust.is_char_boundary (p ++ t) (length p + j) = Rust.is_char_boundary t j.
Proof.
  intros Hj. unfold Rust.is_char_boundary.
  rewrite length_app.
  destruct (Nat.eqb_spec (length p + j) 0); [lia|].
  destruct (Nat.eqb_spec j 0); [lia|].
  destruct (Nat.leb_spec (length p + length t) (length p + j)),
           (Nat.leb_spec (length t) j); try lia.
  - destruct (Nat.eqb_spec (length p + j) (length p + length t)),
             (Nat.eqb_spec j (length t)); (reflexivity || lia).
  - rewrite app_nth2 by lia. f_equal. f_equal. lia.
Qed.

(** The start of a string of characters is a boundary of whatever follows. *)
Lemma is_char_boundary_at_chars (p : list Z) (cs : list Z) :
  Forall Rust.is_char cs ->
  Rust.is_char_boundary (p ++ Rust.str_of cs) (length p) = true.
Proof.
  intros Hcs. unfold Rust.is_char_boundary.
  destruct (Nat.eqb_spec (length p) 0); [reflexivity|].
  rewrite length_app.
  destruct (Nat.leb_spec (length p + length (Rust.str_of cs)) (length p)).
  - apply Nat.eqb_eq. lia.
  - rewrite app_nth2 by lia. rewrite Nat.sub_diag.
    destruct Hcs as [|c cs' Hc Hcs']; [simpl in *; lia|].
    destruct (encode_utf8_shape c Hc) as (b0 & rest & E & Hb0 & _ & _).
    rewrite str_of_cons, E. exact Hb0.
Qed.

(** Inside an encoded character no offset is a boundary. *)
Lemma not_boundary_inside (c : Z) (t : list Z) (i : nat) :
  Rust.is_char c -> 0 < i < Rust.len_utf8 c ->
  Rust.is_char_boundary (Rust.encode_utf8 c ++ t) i = false.
Proof.
  intros Hc Hi.
  destruct (encode_utf8_shape c Hc) as (b0 & rest & E & _ & Hrest & Hlen).
  unfold Rust.is_char_boundary.
  destruct (Nat.eqb_spec i 0); [lia|].
  rewrite length_app.
  destruct (Nat.leb_spec (length (Rust.encode_utf8 c) + length t) i); [lia|].
  rewrite app_nth1 by lia. rewrite E in *. simpl in Hlen.
  destruct i as [|i']; [lia|]. simpl.
  rewrite Forall_forall in Hrest. apply Hrest. apply list_elem_of_In, nth_In. lia.
Qed.

(** A boundary of a string of characters splits it into two strings. *)
Lemma boundary_splits (cs : list Z) :
  Forall Rust.is_char cs ->
  forall i, i <= length (Rust.str_of cs) ->
  Rust.is_char_boundary (Rust.str_of cs) i = true ->
  exists cs1 cs2, cs = cs1 ++ cs2 /\ i = length (Rust.str_of cs1).
Proof.
  induction 1 as [|c cs' Hc Hcs' IH]; intros i Hi Hb.
  - exists [], []. simpl in *. split; [reflexivity | lia].
  - rewrite str_of_cons in *. rewrite length_app in Hi.
    destruct (encode_utf8_shape c Hc) as (_ & _ & _ & _ & _ & Hlen).
    destruct (Nat.eq_dec i 0) as [-> | Hi0].
    { exists [], (c :: cs'). split; reflexivity. }
    destruct (Nat.lt_ge_cases i (Rust.len_utf8 c)) as [Hlt | Hge].
    { rewrite not_boundary_inside in Hb by (assumption || lia). discriminate. }
    destruct (Nat.eq_dec i (Rust.len_utf8 c)) as [-> | Hne].
    { exists [c], cs'. split; [reflexivity|].
      rewrite str_of_cons. simpl. rewrite length_app. simpl. lia. }
    replace i with (length (Rust.encode_utf8 c) + (i - Rust.len_utf8 c)) in Hb by lia.
    rewrite is_char_boundary_shift in Hb by lia.
    destruct (IH (i - Rust.len_utf8 c) ltac:(lia) Hb) as (cs1 & cs2 & -> & Hlen1).
    exists (c :: cs1), cs2. split; [reflexivity|].
    rewrite str_of_cons, length_app. lia.
Qed.

Lemma scan_back_le (s : list Z) (m : nat) : Rust.scan_back s m <= m.
Proof.
  induction m as [|m IH]; simpl; [lia|].
  destruct (Rust.is_char_boundary s (S m)); lia.
Qed.

Lemma scan_back_boundary (s : list Z) (m : nat) :
  Rust.is_char_boundary s (Rust.scan_back s m) = true.
Proof.
  induction m as [|m IH]; simpl; [reflexivity|].
  destruct (Rust.is_char_boundary s (S m)) eqn:E; assumption.
Qed.

Lemma scan_back_ge (s : list Z) (m j : nat) :
  j <= m -> Rust.is_char_boundary s j = true -> j <= Rust.scan_back s m.
Proof.
  induction m as [|m IH]; intros Hj Hb; simpl; [lia|].
  destruct (Rust.is_char_boundary s (S m)) eqn:E.
  - lia.
  - destruct (Nat.eq_dec j (S m)) as [-> | ]; [congruence|].
    apply IH; [lia | assumption].
Qed.

End Boundaries.

Lemma slice_to_chars (cs1 cs2 : list Z) :
  Forall Rust.is_char cs2 ->
  Rust.slice_to (Rust.str_of cs1 ++ Rust.str_of cs2) (length (Rust.str_of cs1))
  = Some (Rust.str_of cs1).
Proof.
  intros H. unfold Rust.slice_to.
  rewrite is_char_boundary_at_chars by assumption.
  f_equal. rewrite firstn_app, Nat.sub_diag, firstn_all. simpl.
  apply app_nil_r.
Qed.

Lemma str_of_one (c : Z) : Rust.str_of [c] = Rust.encode_utf8 c.
Proof. rewrite str_of_cons. apply app_nil_r. Qed.

(** What [truncate_utf8_safe] returns on a string of characters: the
    encoding of a prefix [kept] of the characters, never empty unless the
    input is, and within the budget unless the first character is not. *)
Lemma truncate_utf8_safe_spec (cs : list Z) (max_bytes : nat) :
  Forall Rust.is_char cs ->
  exists kept dropped,
    cs = kept ++ dropped /\
    Rust.truncate_utf8_safe (Rust.str_of cs) max_bytes = Some (Rust.str_of kept) /\
    (cs <> [] -> kept <> []) /\
    match cs with
    | [] => True
    | c :: _ =>
      if max_bytes <? Rust.len_utf8 c then kept = [c]
      else length (Rust.str_of kept) <= max_bytes
    end.
Proof.
  intros Hcs. unfold Rust.truncate_utf8_safe.
  destruct (Nat.leb_spec (length (Rust.str_of cs)) max_bytes) as [Hfit | Hlong].
  { exists cs, []. rewrite app_nil_r. repeat split; [tauto|].
    destruct cs as [|c cs']; [exact I|].
    destruct (Nat.ltb_spec max_bytes (Rust.len_utf8 c)) as [Hbig | _]; [|assumption].
    inversion Hcs as [|? ? Hc _]; subst.
    destruct (encode_utf8_shape c Hc) as (_ & _ & _ & _ & _ & Hlen).
    rewrite str_of_cons, length_app in Hfit. lia. }
  pose proof (scan_back_le (Rust.str_of cs) max_bytes) as Hle.
  pose proof (scan_back_boundary (Rust.str_of cs) max_bytes) as Hb.
  destruct (Nat.eqb_spec (Rust.scan_back (Rust.str_of cs) max_bytes) 0) as [Hz | Hnz].
  - destruct cs as [|c cs']; [simpl in Hlong; lia|].
    inversion Hcs as [|? ? Hc Hcs']; subst.
    destruct (encode_utf8_shape c Hc) as (_ & _ & _ & _ & _ & Hlen).
    change (Rust.str_of (c :: cs')) with (Rust.encode_utf8 c ++ Rust.str_of cs') in *.
    assert (Hbig : max_bytes < Rust.len_utf8 c).
    { destruct (Nat.lt_ge_cases max_bytes (Rust.len_utf8 c)) as [|Hsmall]; [assumption|].
      pose proof (scan_back_ge (Rust.encode_utf8 c ++ Rust.str_of cs') max_bytes
                    (length (Rust.encode_utf8 c)) ltac:(lia)
                    (is_char_boundary_at_chars _ _ Hcs')) as Hge.
      pose proof (len_utf8_pos c). lia. }
    unfold Rust.char_indices_next.
    rewrite next_code_point_encode by (apply is_char_range; assumption).
    simpl option_map. cbv beta iota.
    exists [c], cs'. repeat split.
    + rewrite <- Hlen, <- (str_of_one c). apply slice_to_chars. assumption.
    + discriminate.
    + destruct (Nat.ltb_spec max_bytes (Rust.len_utf8 c)); [reflexivity | lia].
  - destruct (boundary_splits cs Hcs (Rust.scan_back (Rust.str_of cs) max_bytes)
                ltac:(lia) Hb) as (cs1 & cs2 & -> & Hlen1).
    apply Forall_app in Hcs as [Hcs1 Hcs2].
    exists cs1, cs2.
    rewrite Hlen1 in Hnz, Hle |- *. clear Hlen1 Hb.
    rewrite str_of_app.
    destruct cs1 as [|c cs1']; [simpl in Hnz; lia|].
    repeat split; [apply slice_to_chars; assumption | discriminate |].
    simpl app. rewrite str_of_cons, length_app in Hle.
    destruct (encode_utf8_shape c ltac:(inversion Hcs1; assumption))
      as (_ & _ & _ & _ & _ & Hlen).
    destruct (Nat.ltb_spec max_bytes (Rust.len_utf8 c)); [lia|].
    rewrite str_of_cons, length_app. lia.
Qed.

(** C2.  For a string of characters and any budget, [truncate_utf8_safe]
    returns (it does not panic) the encoding of a prefix [kept] of the
    characters, so the result is valid text and a prefix of the input; its
    length is at most [max_units] unless the first character alone is
    longer, in which case the result is exactly that character. *)
Theorem truncate_utf8_safe_sound (cs : list Z) (max_units : nat) :
  Forall Rust.is_char cs ->
  exists kept dropped out,
    cs = kept ++ dropped /\
    Rust.truncate_utf8_safe (Rust.str_of cs) max_units = Some out /\
    out = Rust.str_of kept /\
    Rust.str_of cs = out ++ Rust.str_of dropped /\
    match cs with
    | [] => length out <= max_units
    | c :: _ =>
      if max_units <? Rust.len_utf8 c
      then out = Rust.encode_utf8 c /\ length out = Rust.len_utf8 c
      else length out <= max_units
    end.
Proof.
  intros Hcs.
  destruct (truncate_utf8_safe_spec cs max_units Hcs)
    as (kept & dropped & -> & Hrun & _ & Hlen).
  exists kept, dropped, (Rust.str_of kept).
  repeat split; [assumption | apply str_of_app |].
  destruct kept as [|k kept']; simpl app in *.
  - destruct dropped as [|c d]; [simpl; lia|]. revert Hlen.
    destruct (Nat.ltb_spec max_units (Rust.len_utf8 c)); [discriminate | simpl; lia].
  - cbv beta iota in Hlen |- *.
    destruct (max_units <? Rust.len_utf8 k) eqn:E; [|exact Hlen].
    injection Hlen as ->. rewrite str_of_one. split; [reflexivity|].
    inversion Hcs as [|? ? Hc _]; subst.
    destruct (encode_utf8_shape k Hc) as (_ & _ & _ & _ & _ & Hl). exact Hl.
Qed.

Lemma truncate_utf8_safe_sound_witness :
  Forall Rust.is_char [0x61; 0x1F600; 0x62]%Z /\
  exists out,
    Rust.truncate_utf8_safe (Rust.str_of [0x61; 0x1F600; 0x62]%Z) 2 = Some out /\
    length out <= 2.
Proof.
  assert (H : Forall Rust.is_char [0x61; 0x1F600; 0x62]%Z)
    by (repeat constructor; unfold Rust.is_char; lia).
  split; [exact H|].
  destruct (truncate_utf8_safe_sound [0x61; 0x1F600; 0x62]%Z 2 H)
    as (kept & dropped & out & _ & Hrun & _ & _ & Hlen).
  exists out. split; [exact Hrun | exact Hlen].
Defined.

(** C8.  When the buffer is not longer than the budget, the buffer itself
    is returned, whatever its bytes are. *)
Theorem truncate_utf8_safe_fast_path (s : list Z) (max_units : nat) :
  length s <= max_units -> Rust.truncate_utf8_safe s max_units = Some s.
Proof.
  intros H. unfold Rust.truncate_utf8_safe.
  destruct (Nat.leb_spec (length s) max_units); [reflexivity | lia].
Qed.

Lemma truncate_utf8_safe_fast_path_witness :
  length [0x61; 0x62]%Z <= 5 /\
  Rust.truncate_utf8_safe [0x61; 0x62]%Z 5 = Some [0x61; 0x62]%Z.
Proof.
  assert (H : length [0x61; 0x62]%Z <= 5) by (simpl; lia).
  split; [exact H | exact (truncate_utf8_safe_fast_path [0x61; 0x62]%Z 5 H)].
Defined.

(** C9.  For a non-empty string the result starts with the whole first
    character, so it is not empty; the lookup of the first character
    succeeds, so the empty-string fallback is not taken; and the empty
    buffer leaves through the fast path. *)
Theorem truncate_utf8_safe_keeps_first_char (c : Z) (cs : list Z) (max_units : nat) :
  Forall Rust.is_char (c :: cs) ->
  (exists rest,
     Rust.truncate_utf8_safe (Rust.str_of (c :: cs)) max_units
     = Some (Rust.encode_utf8 c ++ rest) /\
     Rust.encode_utf8 c ++ rest <> []) /\
  Rust.char_indices_next (Rust.str_of (c :: cs)) = Some (0, c) /\
  Rust.truncate_utf8_safe [] max_units = Some [].
Proof.
  intros Hcs. split; [|split].
  - destruct (truncate_utf8_safe_spec (c :: cs) max_units Hcs)
      as (kept & dropped & Hsplit & Hrun & Hne & _).
    inversion Hcs as [|? ? Hc _]; subst.
    destruct (encode_utf8_shape c Hc) as (b0 & bs & E & _ & _ & _).
    destruct kept as [|k kept']; [exfalso; apply Hne; [discriminate | reflexivity]|].
    injection Hsplit as <- _. exists (Rust.str_of kept').
    split; [exact Hrun|]. rewrite E. discriminate.
  - unfold Rust.char_indices_next. rewrite str_of_cons.
    rewrite next_code_point_encode by (apply is_char_range; inversion Hcs; assumption).
    reflexivity.
  - reflexivity.
Qed.

Lemma truncate_utf8_safe_keeps_first_char_witness :
  Forall Rust.is_char [0x1F600%Z] /\
  Rust.char_indices_next (Rust.str_of [0x1F600%Z]) = Some (0, 0x1F600%Z).
Proof.
  assert (H : Forall Rust.is_char [0x1F600%Z])
    by (repeat constructor; unfold Rust.is_char; lia).
  split; [exact H|].
  exact (proj1 (proj2 (truncate_utf8_safe_keeps_first_char 0x1F600%Z [] 0 H))).
Defined.

(* ===================================================================== *)
(** ** Scanning, substitution and idempotence *)
(* ===================================================================== *)

Import Py Io.

Section Scanning.

Lemma startswith_app (p t : list ascii) : startswith (p ++ t) p = true.
Proof.
  induction p as [|a p IH]; [destruct t; reflexivity|].
  simpl. rewrite Ascii.eqb_refl. exact IH.
Qed.

Lemma startswith_split (s p : list ascii) :
  startswith s p = true -> s = p ++ skipn (length p) s.
Proof.
  revert s. induction p as [|a p IH]; intros s H; [reflexivity|].
  destruct s as [|b s]; [discriminate|]. simpl in H.
  apply andb_true_iff in H as [Hab Hs]. apply Ascii.eqb_eq in Hab as ->.
  simpl. f_equal. apply IH. exact Hs.
Qed.

Lemma startswith_nil_l (p : list ascii) : p <> [] -> startswith [] p = false.
Proof. destruct p; [congruence | reflexivity]. Qed.

(** Dropping the rest of a match and resuming is scanning the suffix. *)
Lemma sub_from_skip (m : list ascii -> option nat) (repl s : list ascii) (k : nat) :
  k <= length s -> sub_from m repl s k = sub_from m repl (skipn k s) 0.
Proof.
  revert k. induction s as [|c s IH]; intros k Hk.
  - simpl in Hk. replace k with 0 by lia. reflexivity.
  - destruct k as [|k]; [reflexivity|].
    simpl in Hk. simpl skipn. rewrite <- IH by lia. reflexivity.
Qed.

Lemma sub_from_ext (m1 m2 : list ascii -> option nat) (repl s : list ascii) (k : nat) :
  (forall t, m1 t = m2 t) -> sub_from m1 repl s k = sub_from m2 repl s k.
Proof.
  intros Hm. revert k. induction s as [|c s IH]; intros k.
  - destruct k; simpl; [rewrite Hm|]; reflexivity.
  - destruct k; simpl; [rewrite Hm|]; rewrite ?IH; try reflexivity.
    destruct (m2 (c :: s)) as [[|n]|]; rewrite ?IH; reflexivity.
Qed.

(** Where the matcher is silent everywhere, nothing is substituted. *)
Lemma sub_from_quiet (m : list ascii -> option nat) (repl s : list ascii) :
  anywhere m s = false -> sub_from m repl s 0 = s.
Proof.
  induction s as [|c s IH]; simpl; intros H.
  - destruct (m []); [discriminate | reflexivity].
  - destruct (m (c :: s)); [discriminate|]. rewrite IH by exact H. reflexivity.
Qed.

Lemma contains_anywhere (p s : list ascii) :
  contains p s = anywhere (match_literal p) s.
Proof.
  induction s as [|c s IH]; cbn [contains anywhere]; unfold match_literal.
  - destruct (startswith [] p); reflexivity.
  - destruct (startswith (c :: s) p); [reflexivity|]. simpl. exact IH.
Qed.

Lemma re_match_lit (p s : list ascii) : re_match (re_lit p) s = match_literal p s.
Proof.
  unfold match_literal. revert s.
  induction p as [|a p IH]; intros s; [destruct s; reflexivity|].
  destruct s as [|b s]; [reflexivity|]. simpl.
  destruct (Ascii.eqb a b); [|reflexivity]. simpl. rewrite IH.
  destruct (startswith s p); reflexivity.
Qed.

(** [re.sub] with an escaped literal is [str.replace]. *)
Lemma re_sub_lit (p repl s : list ascii) : re_sub (re_lit p) repl s = replace p repl s.
Proof. apply sub_from_ext. intros t. apply re_match_lit. Qed.

Lemma re_search_lit (p s : list ascii) : re_search (re_lit p) s = contains p s.
Proof.
  rewrite contains_anywhere. unfold re_search.
  induction s as [|c s IH]; simpl; rewrite re_match_lit;
    destruct (match_literal p _); congruence.
Qed.

Section Literal.
Variables old new : list ascii.
Hypothesis old_nonempty : old <> [].

Lemma replace_nil : replace old new [] = [].
Proof.
  unfold replace. cbn [sub_from]. unfold match_literal.
  rewrite startswith_nil_l by assumption. reflexivity.
Qed.

Lemma replace_skip (c : ascii) (s : list ascii) :
  startswith (c :: s) old = false ->
  replace old new (c :: s) = c :: replace old new s.
Proof.
  intros H. unfold replace. cbn [sub_from]. unfold match_literal at 1.
  rewrite H. reflexivity.
Qed.

Lemma replace_hit (t : list ascii) :
  replace old new (old ++ t) = new ++ replace old new t.
Proof.
  unfold replace. destruct old as [|a p] eqn:E; [congruence|].
  pose proof (startswith_app (a :: p) t) as Hpre.
  simpl app in *. cbn [sub_from]. unfold match_literal at 1.
  rewrite Hpre. simpl length. f_equal.
  rewrite sub_from_skip by (rewrite length_app; lia).
  rewrite skipn_app, skipn_all, Nat.sub_diag. reflexivity.
Qed.

Lemma replace_absent (s : list ascii) :
  contains old s = false -> replace old new s = s.
Proof. rewrite contains_anywhere. apply sub_from_quiet. Qed.

(** The first occurrence is replaced and the scan resumes behind it. *)
Lemma replace_find (s : list ascii) (i : nat) :
  find old s = Some i ->
  replace old new s = firstn i s ++ new ++ replace old new (skipn (i + length old) s).
Proof.
  revert i. induction s as [|c s IH]; intros i H; cbn [find] in H.
  - rewrite startswith_nil_l in H by assumption. discriminate.
  - destruct (startswith (c :: s) old) eqn:E.
    + injection H as <-. simpl firstn. simpl "+".
      rewrite (startswith_split _ _ E) at 1. apply replace_hit.
    + destruct (find old s) as [j|]; [|discriminate]. injection H as <-.
      rewrite replace_skip by assumption. rewrite (IH j eq_refl). reflexivity.
Qed.

End Literal.

Lemma compat_of_prefix (x v t : list ascii) :
  startswith (v ++ t) x = true -> compat x v = true.
Proof.
  unfold compat. revert v. induction x as [|a x IH]; intros v H.
  - destruct v; reflexivity.
  - destruct v as [|b v]; [reflexivity|]. simpl in H |- *.
    apply andb_true_iff in H as [Hab H]. apply Ascii.eqb_eq in Hab as ->.
    rewrite Ascii.eqb_refl. simpl. apply IH. exact H.
Qed.

Lemma startswith_drop (u w x : list ascii) :
  length u <= length x -> startswith (u ++ w) x = true ->
  startswith w (skipn (length u) x) = true.
Proof.
  revert x. induction u as [|b u IH]; intros x Hlen H; [exact H|].
  destruct x as [|a x]; [simpl in Hlen; lia|]. simpl in *.
  apply andb_true_iff in H as [_ H]. apply IH; [lia | exact H].
Qed.

Lemma startswith_within (u w w' x : list ascii) :
  length x <= length u -> startswith (u ++ w) x = startswith (u ++ w') x.
Proof.
  revert u. induction x as [|a x IH]; intros u Hlen.
  { destruct (u ++ w), (u ++ w'); reflexivity. }
  destruct u as [|b u]; [simpl in Hlen; lia|]. simpl in *.
  rewrite (IH u) by lia. reflexivity.
Qed.

Lemma contains_nil (p : list ascii) : p <> [] -> contains p [] = false.
Proof. destruct p; [congruence | reflexivity]. Qed.

Lemma contains_cons (p : list ascii) (c : ascii) (s : list ascii) :
  contains p (c :: s) = startswith (c :: s) p || contains p s.
Proof. reflexivity. Qed.

Section BorderFree.
Variables old new : list ascii.
Hypothesis Hfree : border_free old new = true.

Lemma border_free_old : old <> [].
Proof. destruct old; [discriminate | congruence]. Qed.

Lemma border_free_inside (i : nat) :
  i < length new -> compat old (skipn i new) = false.
Proof.
  intros Hi. unfold border_free in Hfree.
  destruct old as [|a p]; [discriminate|]. destruct new as [|b q]; [discriminate|].
  apply andb_true_iff in Hfree as [H _].
  rewrite forallb_forall in H. apply negb_true_iff, H, in_seq. lia.
Qed.

Lemma border_free_before (k : nat) :
  1 <= k < length old -> compat (skipn k old) new = false.
Proof.
  intros Hk. unfold border_free in Hfree.
  destruct old as [|a p]; [discriminate|]. destruct new as [|b q]; [discriminate|].
  apply andb_true_iff in Hfree as [_ H].
  rewrite forallb_forall in H. apply negb_true_iff, H, in_seq. simpl in *. lia.
Qed.

Lemma border_free_new : 0 < length new.
Proof.
  unfold border_free in Hfree.
  destruct old; [discriminate|]. destruct new; [discriminate | simpl; lia].
Qed.

(** Substituting behind a context [u] cannot complete an occurrence that
    was not there before. *)
Lemma no_new_prefix (s u : list ascii) :
  startswith (u ++ replace old new s) old = true ->
  startswith (u ++ s) old = true.
Proof.
  pose proof border_free_old as Hold.
  revert u. induction s as [|c s IH]; intros u H.
  - rewrite replace_nil in H by assumption. exact H.
  - destruct (Nat.le_gt_cases (length old) (length u)) as [Hlong | Hshort].
    { rewrite (startswith_within u _ (replace old new (c :: s))) by assumption.
      exact H. }
    destruct (startswith (c :: s) old) eqn:E.
    + exfalso. rewrite (startswith_split _ _ E) in H.
      rewrite replace_hit in H by assumption.
      apply startswith_drop in H; [|lia].
      apply compat_of_prefix in H.
      destruct (Nat.eq_dec (length u) 0) as [Hz | Hnz].
      * rewrite Hz, skipn_O in H.
        pose proof (border_free_inside 0 border_free_new) as Hc.
        rewrite skipn_O in Hc. congruence.
      * rewrite border_free_before in H by lia. discriminate.
    + rewrite replace_skip in H by assumption.
      change (u ++ c :: replace old new s) with (u ++ [c] ++ replace old new s) in H.
      rewrite app_assoc in H. apply IH in H.
      rewrite <- app_assoc in H. exact H.
Qed.

Lemma contains_behind_new (t : list ascii) :
  contains old t = false -> contains old (new ++ t) = false.
Proof.
  intros Ht.
  assert (G : forall i, i <= length new -> contains old (skipn i new ++ t) = false).
  { intros i Hi. remember (length new - i) as d eqn:Hd.
    revert i Hi Hd. induction d as [|d IH]; intros i Hi Hd.
    - rewrite skipn_all2 by lia. exact Ht.
    - destruct (skipn i new) as [|c v] eqn:E.
      { exact Ht. }
      simpl app. rewrite contains_cons. apply orb_false_iff. split.
      + destruct (startswith (c :: v ++ t) old) eqn:Hs; [|reflexivity].
        apply (compat_of_prefix old (c :: v) t) in Hs.
        rewrite <- E, border_free_inside in Hs by lia. discriminate.
      + assert (Hv : v = skipn (S i) new).
        { replace (S i) with (1 + i) by lia.
          rewrite <- skipn_skipn. rewrite E. reflexivity. }
        rewrite Hv. apply IH; lia. }
  apply (G 0). lia.
Qed.

Lemma replace_clears (s : list ascii) : contains old (replace old new s) = false.
Proof.
  pose proof border_free_old as Hold.
  remember (length s) as n eqn:Hn. revert s Hn.
  induction n as [n IH] using lt_wf_ind. intros s ->.
  destruct s as [|c s].
  - rewrite replace_nil by assumption. apply contains_nil. assumption.
  - destruct (startswith (c :: s) old) eqn:E.
    + rewrite (startswith_split _ _ E), replace_hit by assumption.
      apply contains_behind_new.
      apply (IH (length (skipn (length old) (c :: s)))); [|reflexivity].
      rewrite length_skipn. destruct old; [congruence | simpl; lia].
    + rewrite replace_skip by assumption. rewrite contains_cons.
      apply orb_false_iff. split.
      * destruct (startswith (c :: replace old new s) old) eqn:Hs; [|reflexivity].
        apply (no_new_prefix s [c]) in Hs.
        change ([c] ++ s) with (c :: s) in Hs. congruence.
      * apply (IH (length s)); [simpl; lia | reflexivity].
Qed.

(** A substitution whose replacement is border free is idempotent. *)
Lemma replace_idempotent (s : list ascii) :
  replace old new (replace old new s) = replace old new s.
Proof. apply replace_absent, replace_clears. Qed.

End BorderFree.
End Scanning.

Section Lines.

Lemma count_lf_app (s t : list ascii) : count_lf (s ++ t) = count_lf s + count_lf t.
Proof. induction s as [|c s IH]; simpl; [reflexivity | rewrite IH; lia]. Qed.

Lemma count_lf_cons (c : ascii) (s : list ascii) :
  count_lf (c :: s) = (if Ascii.eqb c LF then 1 else 0) + count_lf s.
Proof. reflexivity. Qed.

Lemma concat_readlines (s : list ascii) : concat (readlines s) = s.
Proof.
  induction s as [|c s IH]; [reflexivity|]. simpl.
  destruct (Ascii.eqb c LF).
  - simpl. rewrite IH. reflexivity.
  - destruct (readlines s) as [|l ls]; simpl in *; rewrite <- IH; reflexivity.
Qed.

(** A line read by [readlines] holds at most one line feed. *)
Lemma readlines_one_lf (s : list ascii) :
  Forall (fun l => count_lf l <= 1) (readlines s).
Proof.
  induction s as [|c s IH]; [constructor|]. simpl.
  destruct (Ascii.eqb c LF) eqn:E.
  - constructor; [|exact IH]. rewrite count_lf_cons, E. simpl. lia.
  - destruct (readlines s) as [|l ls].
    + constructor; [|constructor]. rewrite count_lf_cons, E. simpl. lia.
    + inversion IH; subst. constructor; [|assumption].
      rewrite count_lf_cons, E. simpl. assumption.
Qed.

Lemma count_lf_concat_le (ls : list (list ascii)) :
  Forall (fun l => count_lf l <= 1) ls -> count_lf (concat ls) <= length ls.
Proof.
  induction 1 as [|l ls Hl _ IH]; simpl; [lia|].
  rewrite count_lf_app. lia.
Qed.

Lemma replace_block_adds_lf (lines : list (list ascii)) :
  Forall (fun l => count_lf l <= 1) lines ->
  count_lf (concat lines) < count_lf (concat (FixMutex.replace_block lines)).
Proof.
  intros Hlines. unfold FixMutex.replace_block.
  rewrite <- (firstn_skipn 628 lines) at 1.
  rewrite <- (firstn_skipn 12 (skipn 628 lines)) at 1.
  rewrite skipn_skipn. change (12 + 628) with 640.
  rewrite !concat_app, !count_lf_app.
  assert (H12 : count_lf (concat (firstn 12 (skipn 628 lines))) <= 12).
  { etransitivity; [apply count_lf_concat_le|].
    - apply Forall_take, Forall_drop. exact Hlines.
    - rewrite length_firstn. lia. }
  assert (H13 : count_lf (concat [FixMutex.new_block]) = 13) by (vm_compute; reflexivity).
  lia.
Qed.

Lemma mutex_edits_adds_lf (content : list ascii) :
  count_lf content < count_lf (FixMutex.mutex_edits content).
Proof.
  unfold FixMutex.mutex_edits.
  rewrite <- (concat_readlines content) at 1.
  apply replace_block_adds_lf, readlines_one_lf.
Qed.

End Lines.

(* ===================================================================== *)
(** ** File transactions and the job sequence *)
(* ===================================================================== *)

Section Transactions.

Lemma patch_file_ok (os : platform) (path : string)
    (edits : list ascii -> list ascii) (msg bytes : list ascii) (w : world) :
  files w !! path = Some bytes ->
  patch_file os path edits msg w
  = (Ok tt, World (<[path := translate_out os (edits (universal_newlines bytes))]> (files w))
                  (writes w ++ [path]) (stdout w ++ [msg]) (stderr w)).
Proof.
  intros H. unfold patch_file, mbind, M_bind, read_text. rewrite H. reflexivity.
Qed.

Lemma patch_file_missing (os : platform) (path : string)
    (edits : list ascii -> list ascii) (msg : list ascii) (w : world) :
  files w !! path = None ->
  patch_file os path edits msg w = (Raise (FileNotFoundError path), w).
Proof.
  intros H. unfold patch_file, mbind, M_bind, read_text. rewrite H. reflexivity.
Qed.

Lemma patch_file_raise (os : platform) (path : string)
    (edits : list ascii -> list ascii) (msg : list ascii) (w w' : world) (e : exn) :
  patch_file os path edits msg w = (Raise e, w') -> w' = w.
Proof.
  destruct (files w !! path) as [bytes|] eqn:H.
  - rewrite (patch_file_ok _ _ _ _ bytes) by assumption. discriminate.
  - rewrite patch_file_missing by assumption. congruence.
Qed.

Lemma universal_newlines_plain (s : list ascii) :
  ~ In CR s -> universal_newlines s = s.
Proof.
  induction s as [|c s IH]; intros H; [reflexivity|]. simpl.
  destruct (Ascii.eqb_spec c CR) as [-> | _].
  - exfalso. apply H. left. reflexivity.
  - rewrite IH; [reflexivity|]. intros Hin. apply H. right. exact Hin.
Qed.

Lemma translate_out_posix (s : list ascii) : translate_out Posix s = s.
Proof.
  induction s as [|c s IH]; [reflexivity|]. simpl.
  destruct (Ascii.eqb_spec c LF) as [-> | _]; rewrite IH; reflexivity.
Qed.

Lemma run_jobs_stops (js1 js2 : list (M unit)) (j : M unit) (w w1 w2 : world) (e : exn) :
  ApplyPlatformRefactor.run_jobs js1 w = (Ok tt, w1) ->
  j w1 = (Raise e, w2) ->
  ApplyPlatformRefactor.run_jobs (js1 ++ j :: js2) w = (Raise e, w2).
Proof.
  revert w. induction js1 as [|j1 js1 IH]; intros w H1 Hj; simpl in *.
  - injection H1 as <-. unfold mbind, M_bind. rewrite Hj. reflexivity.
  - unfold mbind, M_bind in *. destruct (j1 w) as [[[]|e1] w'] eqn:E1.
    + apply IH; assumption.
    + discriminate.
Qed.

Lemma report_error_world (e : exn) (w : world) :
  ApplyPlatformRefactor.report_error e w
  = (Ok tt, World (files w) (writes w)
                  (stdout w ++ [lit "Error: " ++ exn_message e])
                  (stderr w ++ [lit "Traceback (most recent call last):"])).
Proof. reflexivity. Qed.

Lemma main_on_raise (os : platform) (w w1 : world) (e : exn) :
  ApplyPlatformRefactor.run_jobs (ApplyPlatformRefactor.jobs os) w = (Raise e, w1) ->
  ApplyPlatformRefactor.main os w
  = (0%Z, World (files w1) (writes w1)
                (stdout w1 ++ [lit "Error: " ++ exn_message e])
                (stderr w1 ++ [lit "Traceback (most recent call last):"])).
Proof.
  intros Hrun.
  unfold ApplyPlatformRefactor.main, run_script, ApplyPlatformRefactor.main_body,
    try_except, mbind, M_bind.
  rewrite Hrun. reflexivity.
Qed.

Lemma job_raise_unchanged (os : platform) (j : M unit) (w w' : world) (e : exn) :
  In j (ApplyPlatformRefactor.jobs os) -> j w = (Raise e, w') -> w' = w.
Proof.
  intros Hin Hj. simpl in Hin.
  repeat destruct Hin as [<- | Hin]; try contradiction;
    eapply patch_file_raise; exact Hj.
Qed.

(** A script whose body is a [try] with a handler that ends normally exits
    with status 0, whatever the body does. *)
Lemma run_script_handled (body : M unit) (handler : exn -> M unit) (w : world) :
  (forall e w', exists w'', handler e w' = (Ok tt, w'')) ->
  fst (run_script (try_except body handler) w) = 0%Z.
Proof.
  intros Hh. unfold run_script, try_except.
  destruct (body w) as [[a|e] w'] eqn:E.
  - reflexivity.
  - destruct (Hh e w') as [w'' ->]. reflexivity.
Qed.

Lemma main_exit_zero (os : platform) (w : world) :
  fst (ApplyPlatformRefactor.main os w) = 0%Z.
Proof.
  apply run_script_handled. intros e w'. eexists. apply report_error_world.
Qed.

Lemma print_then (msg : list ascii) (k : M unit) (w : world) :
  (print msg;; k) w
  = k (World (files w) (writes w) (stdout w ++ [msg]) (stderr w)).
Proof. reflexivity. Qed.

Lemma fix_utf8_main_exit_zero (os : platform) (w : world) :
  fst (FixUtf8.main os w) = 0%Z.
Proof.
  unfold FixUtf8.main, FixUtf8.main_body, run_script.
  rewrite !print_then.
  apply (run_script_handled _ FixUtf8.report_error).
  intros e w'. eexists. reflexivity.
Qed.

End Transactions.

(* ===================================================================== *)
(** ** Claims about the buffer transforms *)
(* ===================================================================== *)

(** C1, counterexample.  On a buffer that holds the import anchor a second
    pass of [update_cli_runner]'s edits inserts the import once more, and a
    second pass of the [fix_mutex.py] replacement on the empty file inserts
    the block again. *)
Lemma edits_twice_differ :
  ApplyPlatformRefactor.cli_runner_edits
    (ApplyPlatformRefactor.cli_runner_edits ApplyPlatformRefactor.cli_import_old)
  <> ApplyPlatformRefactor.cli_runner_edits ApplyPlatformRefactor.cli_import_old
  /\ FixMutex.mutex_edits (FixMutex.mutex_edits []) <> FixMutex.mutex_edits [].
Proof.
  split; intros H; apply (f_equal (@length ascii)) in H; vm_compute in H; discriminate.
Qed.

(** C1, amended.  On a buffer [C] where none of the four anchors of
    [update_cli_runner] occurs the edits return [C] unchanged, so twice is
    once; the call rewrite and the creation-flags rewrite are idempotent on
    every buffer [D]; the line-block replacement of [fix_mutex.py] adds at
    least one line feed on every application, so applying it twice never
    equals applying it once. *)
Theorem edits_idempotent_when_settled (C D : list ascii) :
  contains ApplyPlatformRefactor.cli_import_old C = false ->
  contains ApplyPlatformRefactor.cli_call_old C = false ->
  re_search ApplyPlatformRefactor.cli_wrapper_pattern C = false ->
  contains ApplyPlatformRefactor.cli_flags_old C = false ->
  (ApplyPlatformRefactor.cli_runner_edits C = C /\
   ApplyPlatformRefactor.cli_runner_edits (ApplyPlatformRefactor.cli_runner_edits C)
   = ApplyPlatformRefactor.cli_runner_edits C) /\
  (let call := replace ApplyPlatformRefactor.cli_call_old ApplyPlatformRefactor.cli_call_new in
   call (call D) = call D) /\
  (let flags := re_sub (re_lit ApplyPlatformRefactor.cli_flags_old)
                       ApplyPlatformRefactor.cli_flags_new in
   flags (flags D) = flags D) /\
  count_lf D < count_lf (FixMutex.mutex_edits D) /\
  FixMutex.mutex_edits (FixMutex.mutex_edits D) <> FixMutex.mutex_edits D.
Proof.
  intros Himport Hcall Hwrapper Hflags.
  assert (Hid : ApplyPlatformRefactor.cli_runner_edits C = C).
  { unfold ApplyPlatformRefactor.cli_runner_edits. cbv zeta.
    rewrite (replace_absent _ _ C) by assumption.
    rewrite (replace_absent _ _ C) by assumption.
    unfold re_sub at 2. rewrite (sub_from_quiet _ _ C) by exact Hwrapper.
    rewrite re_sub_lit. apply replace_absent. assumption. }
  split; [split; [exact Hid | rewrite !Hid; reflexivity]|].
  split; [apply replace_idempotent; vm_compute; reflexivity|].
  split; [cbv zeta; rewrite !re_sub_lit; apply replace_idempotent; vm_compute; reflexivity|].
  split; [apply mutex_edits_adds_lf|].
  intros H. pose proof (mutex_edits_adds_lf (FixMutex.mutex_edits D)) as Hlt.
  rewrite H in Hlt. lia.
Qed.

Lemma edits_idempotent_when_settled_witness :
  let C := lit "fn main() {}" in
  ApplyPlatformRefactor.cli_runner_edits C = C /\
  count_lf C < count_lf (FixMutex.mutex_edits C).
Proof.
  intros C.
  destruct (edits_idempotent_when_settled C C) as ((H1 & _) & _ & _ & H2 & _);
    [vm_compute; reflexivity .. | ].
  split; [exact H1 | exact H2].
Defined.




(** C10.  Each of the four slice rewrites of [fix_utf8.py] applied to its
    own output changes nothing, on every buffer. *)
Theorem slice_rewrites_idempotent (B : list ascii) :
  FixUtf8.fix_prompt_slice (FixUtf8.fix_prompt_slice B) = FixUtf8.fix_prompt_slice B /\
  FixUtf8.fix_context_slice (FixUtf8.fix_context_slice B) = FixUtf8.fix_context_slice B /\
  FixUtf8.fix_result_slice (FixUtf8.fix_result_slice B) = FixUtf8.fix_result_slice B /\
  FixUtf8.fix_trimmed_slice (FixUtf8.fix_trimmed_slice B) = FixUtf8.fix_trimmed_slice B.
Proof.
  unfold FixUtf8.fix_prompt_slice, FixUtf8.fix_context_slice,
    FixUtf8.fix_result_slice, FixUtf8.fix_trimmed_slice.
  rewrite !re_sub_lit.
  repeat split; apply replace_idempotent; vm_compute; reflexivity.
Qed.

(* ===================================================================== *)
(** ** Claims about files, line endings and exit status *)
(* ===================================================================== *)

(** C3, counterexample.  With [cli_runner.rs] unreadable and [config.rs]
    holding an anchor, the first job raises, the run writes nothing and
    leaves [config.rs] as it was, although [update_config] run on the same
    world would have rewritten it. *)
Lemma failed_job_blocks_later_jobs :
  let config := path_join Posix ApplyPlatformRefactor.BASE_DIR "config.rs" in
  let w := with_file config ApplyPlatformRefactor.paths_import_old empty_world in
  (exists e, ApplyPlatformRefactor.update_cli_runner Posix w = (Raise e, w)) /\
  writes (snd (ApplyPlatformRefactor.main Posix w)) = [] /\
  files (snd (ApplyPlatformRefactor.main Posix w)) !! config
  = Some ApplyPlatformRefactor.paths_import_old /\
  files (snd (ApplyPlatformRefactor.update_config Posix w)) !! config
  = Some ApplyPlatformRefactor.paths_import_new.
Proof.
  cbv zeta. split; [eexists; vm_compute; reflexivity|].
  repeat split; vm_compute; reflexivity.
Qed.

(** C3, amended.  When the jobs before [j] end normally and [j] raises,
    the job sequence raises at once with the world the earlier jobs left:
    none of the later jobs runs, the files and the list of writes are those
    left by the earlier jobs, and the error is printed. *)
Theorem failed_job_ends_the_run (os : platform) (js1 js2 : list (M unit))
    (j : M unit) (w w1 w2 : world) (e : exn) :
  ApplyPlatformRefactor.jobs os = js1 ++ j :: js2 ->
  ApplyPlatformRefactor.run_jobs js1 w = (Ok tt, w1) ->
  j w1 = (Raise e, w2) ->
  ApplyPlatformRefactor.run_jobs (ApplyPlatformRefactor.jobs os) w = (Raise e, w1) /\
  files (snd (ApplyPlatformRefactor.main os w)) = files w1 /\
  writes (snd (ApplyPlatformRefactor.main os w)) = writes w1 /\
  stdout (snd (ApplyPlatformRefactor.main os w))
  = stdout w1 ++ [lit "Error: " ++ exn_message e].
Proof.
  intros Hjobs Hbefore Hfail.
  assert (w2 = w1) as ->.
  { apply (job_raise_unchanged os j w1 w2 e); [|exact Hfail].
    rewrite Hjobs. apply in_elt. }
  assert (Hrun : ApplyPlatformRefactor.run_jobs (ApplyPlatformRefactor.jobs os) w
                 = (Raise e, w1)).
  { rewrite Hjobs. eapply run_jobs_stops; eassumption. }
  split; [exact Hrun|].
  rewrite (main_on_raise os w w1 e Hrun). repeat split.
Qed.

Lemma failed_job_ends_the_run_witness :
  let cli := path_join Posix ApplyPlatformRefactor.BASE_DIR "cli_runner.rs" in
  let hooks := path_join Posix ApplyPlatformRefactor.BASE_DIR "hooks.rs" in
  let w := with_file cli (lit "fn a() {}") (with_file hooks (lit "fn b() {}") empty_world) in
  writes (snd (ApplyPlatformRefactor.main Posix w)) = [cli].
Proof.
  intros cli hooks w.
  destruct (failed_job_ends_the_run Posix
              [ApplyPlatformRefactor.update_cli_runner Posix]
              [ApplyPlatformRefactor.update_hooks Posix;
               ApplyPlatformRefactor.update_prompt_enhancer Posix;
               ApplyPlatformRefactor.update_mod Posix]
              (ApplyPlatformRefactor.update_config Posix)
              w (snd (ApplyPlatformRefactor.update_cli_runner Posix w))
              (snd (ApplyPlatformRefactor.update_cli_runner Posix w))
              (FileNotFoundError
                 (path_join Posix ApplyPlatformRefactor.BASE_DIR "config.rs")))
    as (_ & _ & Hw & _);
    [reflexivity | vm_compute; reflexivity | vm_compute; reflexivity |].
  rewrite Hw. vm_compute. reflexivity.
Defined.

(** C5, counterexample.  A [config.rs] that the edits leave identical is
    written all the same. *)
Lemma unchanged_file_is_written :
  let config := path_join Posix ApplyPlatformRefactor.BASE_DIR "config.rs" in
  let w := with_file config (lit "fn main() {}") empty_world in
  ApplyPlatformRefactor.config_edits (lit "fn main() {}") = lit "fn main() {}" /\
  files (snd (ApplyPlatformRefactor.update_config Posix w)) = files w /\
  writes w = [] /\
  writes (snd (ApplyPlatformRefactor.update_config Posix w)) = [config].
Proof. cbv zeta. repeat split; vm_compute; reflexivity. Qed.

(** C5, amended.  Whenever [config.rs] can be read, [update_config] writes
    it back exactly once, changed or not; the file then holds the edited
    buffer in the platform's line-ending convention. *)
Theorem update_config_always_writes (os : platform) (w : world) (bytes : list ascii) :
  let config := path_join os ApplyPlatformRefactor.BASE_DIR "config.rs" in
  files w !! config = Some bytes ->
  let w' := snd (ApplyPlatformRefactor.update_config os w) in
  writes w' = writes w ++ [config] /\
  files w' !! config
  = Some (translate_out os
            (ApplyPlatformRefactor.config_edits (universal_newlines bytes))).
Proof.
  intros config Hread w'. subst w'.
  change (ApplyPlatformRefactor.update_config os)
    with (patch_file os config ApplyPlatformRefactor.config_edits
            (lit "Updated config.rs")).
  rewrite (patch_file_ok _ _ _ _ bytes) by exact Hread.
  split; [reflexivity|]. simpl. apply lookup_insert_eq.
Qed.

Lemma update_config_always_writes_witness :
  let config := path_join Posix ApplyPlatformRefactor.BASE_DIR "config.rs" in
  let w := with_file config (lit "fn main() {}") empty_world in
  writes (snd (ApplyPlatformRefactor.update_config Posix w)) = [config].
Proof.
  intros config w.
  destruct (update_config_always_writes Posix w (lit "fn main() {}")) as [H _];
    [vm_compute; reflexivity|].
  exact H.
Defined.

(** C6, counterexample.  In a world without files the first job of either
    script raises an I/O error, and the script exits with status 0. *)
Lemma io_error_exits_zero :
  (exists e, ApplyPlatformRefactor.update_cli_runner Posix empty_world
             = (Raise e, empty_world)) /\
  fst (ApplyPlatformRefactor.main Posix empty_world) = 0%Z /\
  (exists e, FixUtf8.fix_claude_rs Posix empty_world = (Raise e, empty_world)) /\
  fst (FixUtf8.main Posix empty_world) = 0%Z.
Proof.
  repeat split; try (eexists; vm_compute; reflexivity); vm_compute; reflexivity.
Qed.

(** C6, amended.  Both scripts exit with status 0 in every world, whether
    a job raised or not: the handler prints the error and ends normally. *)
Theorem run_always_exits_zero (os : platform) (w : world) :
  fst (ApplyPlatformRefactor.main os w) = 0%Z /\
  fst (FixUtf8.main os w) = 0%Z.
Proof. split; [apply main_exit_zero | apply fix_utf8_main_exit_zero]. Qed.

(** C7, counterexample.  A file with one CRLF and one LF line, which no
    edit touches, is written back with LF only on POSIX and with CRLF only
    on Windows. *)
Lemma line_endings_are_rewritten :
  let cli := path_join Posix ApplyPlatformRefactor.BASE_DIR "cli_runner.rs" in
  let cli_win := path_join Windows ApplyPlatformRefactor.BASE_DIR "cli_runner.rs" in
  let mixed := lit "a" ++ [CR; LF] ++ lit "b" ++ [LF] in
  ApplyPlatformRefactor.cli_runner_edits (universal_newlines mixed)
  = universal_newlines mixed /\
  files (snd (ApplyPlatformRefactor.update_cli_runner Posix
                (with_file cli mixed empty_world))) !! cli
  = Some (lit "a" ++ [LF] ++ lit "b" ++ [LF]) /\
  files (snd (ApplyPlatformRefactor.update_cli_runner Windows
                (with_file cli_win mixed empty_world))) !! cli_win
  = Some (lit "a" ++ [CR; LF] ++ lit "b" ++ [CR; LF]).
Proof. cbv zeta. repeat split; vm_compute; reflexivity. Qed.

Import Chain Runs.

(* ===================================================================== *)
(** ** More on the truncation *)
(* ===================================================================== *)

Lemma encode_utf8_nonempty (c : Z) : 1 <= length (Rust.encode_utf8 c).
Proof.
  unfold Rust.encode_utf8.
  destruct (Rust.len_utf8 c) as [|[|[|[|n]]]]; simpl; lia.
Qed.

(** Two prefixes of one list of characters: the shorter in bytes is a
    prefix of the other. *)
Lemma char_prefixes_nest (k1 d1 k2 d2 : list Z) :
  k1 ++ d1 = k2 ++ d2 ->
  length (Rust.str_of k1) <= length (Rust.str_of k2) ->
  exists t, k2 = k1 ++ t.
Proof.
  revert k2. induction k1 as [|a k1 IH]; intros k2 Heq Hlen.
  - exists k2. reflexivity.
  - destruct k2 as [|b k2].
    + rewrite str_of_cons, length_app in Hlen.
      pose proof (encode_utf8_nonempty a). simpl in Hlen. lia.
    + simpl in Heq. injection Heq as -> Heq.
      rewrite !str_of_cons, !length_app in Hlen.
      destruct (IH k2 Heq ltac:(lia)) as [t ->]. exists t. reflexivity.
Qed.

Lemma slice_to_some (s out : list Z) (n : nat) :
  Rust.slice_to s n = Some out -> out = firstn n s.
Proof.
  unfold Rust.slice_to. destruct (Rust.is_char_boundary s n); congruence.
Qed.

(** A prefix of the characters that fits the budget is not longer than
    what the truncation returns. *)
Lemma fitting_prefix_le_result (kept dropped out : list Z) (max_bytes : nat) :
  Forall Rust.is_char (kept ++ dropped) ->
  length (Rust.str_of kept) <= max_bytes ->
  Rust.truncate_utf8_safe (Rust.str_of (kept ++ dropped)) max_bytes = Some out ->
  length (Rust.str_of kept) <= length out.
Proof.
  intros Hcs Hfit Hrun.
  unfold Rust.truncate_utf8_safe in Hrun.
  destruct (Nat.leb_spec (length (Rust.str_of (kept ++ dropped))) max_bytes)
    as [Hshort | Hlong].
  { injection Hrun as <-. rewrite str_of_app, length_app. lia. }
  apply Forall_app in Hcs as [_ Hd].
  pose proof (scan_back_ge (Rust.str_of (kept ++ dropped)) max_bytes
                (length (Rust.str_of kept)) Hfit) as Hge.
  rewrite str_of_app in Hge at 1.
  specialize (Hge (is_char_boundary_at_chars _ _ Hd)).
  pose proof (scan_back_le (Rust.str_of (kept ++ dropped)) max_bytes) as Hle.
  destruct (Nat.eqb_spec (Rust.scan_back (Rust.str_of (kept ++ dropped)) max_bytes) 0)
    as [Hz | Hnz]; [lia|].
  apply slice_to_some in Hrun. rewrite Hrun, length_firstn. lia.
Qed.

(** X1.  The truncation returns the longest prefix of whole characters
    that fits the budget: no prefix of the characters within [max_bytes] is
    longer than the result. *)
Theorem truncate_utf8_safe_longest (cs : list Z) (max_bytes : nat) :
  Forall Rust.is_char cs ->
  exists out,
    Rust.truncate_utf8_safe (Rust.str_of cs) max_bytes = Some out /\
    forall kept dropped,
      cs = kept ++ dropped ->
      length (Rust.str_of kept) <= max_bytes ->
      length (Rust.str_of kept) <= length out.
Proof.
  intros Hcs.
  destruct (truncate_utf8_safe_spec cs max_bytes Hcs)
    as (k & d & Hsplit & Hrun & _ & _).
  exists (Rust.str_of k). split; [exact Hrun|].
  intros kept dropped -> Hfit.
  eapply fitting_prefix_le_result; eassumption.
Qed.

Lemma truncate_utf8_safe_longest_witness :
  Forall Rust.is_char [0x61; 0xE9; 0x62]%Z /\
  exists out, Rust.truncate_utf8_safe (Rust.str_of [0x61; 0xE9; 0x62]%Z) 3 = Some out /\
              3 <= length out.
Proof.
  assert (H : Forall Rust.is_char [0x61; 0xE9; 0x62]%Z)
    by (repeat constructor; unfold Rust.is_char; lia).
  split; [exact H|].
  destruct (truncate_utf8_safe_longest [0x61; 0xE9; 0x62]%Z 3 H) as (out & Hrun & Hmax).
  exists out. split; [exact Hrun|].
  apply (Hmax [0x61; 0xE9]%Z [0x62]%Z); [reflexivity | simpl; lia].
Defined.

(** X2.  Truncating the result again with the same budget returns it
    unchanged, also when the result is a first character over budget. *)
Theorem truncate_utf8_safe_idempotent (cs : list Z) (max_bytes : nat) (out : list Z) :
  Forall Rust.is_char cs ->
  Rust.truncate_utf8_safe (Rust.str_of cs) max_bytes = Some out ->
  Rust.truncate_utf8_safe out max_bytes = Some out.
Proof.
  intros Hcs Hrun.
  destruct (truncate_utf8_safe_spec cs max_bytes Hcs)
    as (k & d & -> & Hrun' & _ & Hlen).
  rewrite Hrun' in Hrun. injection Hrun as <-.
  apply Forall_app in Hcs as [Hk _].
  assert (Hfast : length (Rust.str_of k) <= max_bytes ->
                  Rust.truncate_utf8_safe (Rust.str_of k) max_bytes = Some (Rust.str_of k)).
  { intros H. unfold Rust.truncate_utf8_safe.
    destruct (Nat.leb_spec (length (Rust.str_of k)) max_bytes); [reflexivity | lia]. }
  destruct k as [|c k]; [apply Hfast; simpl; lia|].
  simpl app in Hlen. cbv beta iota in Hlen.
  destruct (max_bytes <? Rust.len_utf8 c) eqn:E; [|apply Hfast; exact Hlen].
  injection Hlen as ->.
  destruct (truncate_utf8_safe_spec [c] max_bytes Hk)
    as (k2 & d2 & Hsplit & Hrun2 & Hne & _).
  destruct k2 as [|c2 k2]; [exfalso; apply Hne; [discriminate | reflexivity]|].
  simpl in Hsplit. injection Hsplit as <- Hrest.
  destruct k2; [|discriminate]. exact Hrun2.
Qed.

Lemma truncate_utf8_safe_idempotent_witness :
  Rust.truncate_utf8_safe [0xF0; 0x9F; 0x98; 0x80]%Z 1 = Some [0xF0; 0x9F; 0x98; 0x80]%Z.
Proof.
  apply (truncate_utf8_safe_idempotent [0x1F600; 0x62]%Z 1).
  - repeat constructor; unfold Rust.is_char; lia.
  - vm_compute. reflexivity.
Defined.

(** X3.  A larger budget keeps at least what a smaller one keeps: the
    result for [m1] is a prefix of the result for [m2] when [m1 <= m2]. *)
Theorem truncate_utf8_safe_monotone (cs : list Z) (m1 m2 : nat) (out1 out2 : list Z) :
  Forall Rust.is_char cs ->
  m1 <= m2 ->
  Rust.truncate_utf8_safe (Rust.str_of cs) m1 = Some out1 ->
  Rust.truncate_utf8_safe (Rust.str_of cs) m2 = Some out2 ->
  exists more, out2 = out1 ++ more.
Proof.
  intros Hcs Hm H1 H2.
  destruct (truncate_utf8_safe_spec cs m1 Hcs) as (k1 & d1 & E1 & R1 & N1 & L1).
  destruct (truncate_utf8_safe_spec cs m2 Hcs) as (k2 & d2 & E2 & R2 & N2 & L2).
  rewrite R1 in H1. rewrite R2 in H2. injection H1 as <-. injection H2 as <-.
  assert (Hnest : exists t, k2 = k1 ++ t).
  { destruct cs as [|c cs'].
    - destruct k1; [|discriminate]. exists k2. reflexivity.
    - destruct (m1 <? Rust.len_utf8 c) eqn:Ebig.
      + subst k1. destruct k2 as [|c2 k2']; [exfalso; apply N2; [discriminate | reflexivity]|].
        simpl in E2. injection E2 as -> _. exists k2'. reflexivity.
      + apply (char_prefixes_nest k1 d1 k2 d2); [congruence|].
        rewrite E1 in Hcs, R2.
        apply (fitting_prefix_le_result k1 d1 _ m2 Hcs); [lia | exact R2]. }
  destruct Hnest as [t ->]. exists (Rust.str_of t). apply str_of_app.
Qed.

Lemma truncate_utf8_safe_monotone_witness :
  exists more,
    Rust.str_of [0x61; 0x1F600]%Z = [0x61%Z] ++ more.
Proof.
  apply (truncate_utf8_safe_monotone [0x61; 0x1F600; 0x62]%Z 2 5).
  - repeat constructor; unfold Rust.is_char; lia.
  - lia.
  - vm_compute. reflexivity.
  - vm_compute. reflexivity.
Defined.

(* ===================================================================== *)
(** ** Substitutions and the text around them *)
(* ===================================================================== *)

Section Occurrences.

Lemma contains_app_r (x a b : list ascii) :
  contains x (a ++ b) = false -> contains x b = false.
Proof.
  induction a as [|c a IH]; intros H; [exact H|].
  simpl app in H. rewrite contains_cons in H.
  apply orb_false_iff in H as [_ H]. apply IH. exact H.
Qed.

Lemma contains_split (x s : list ascii) :
  contains x s = true -> exists a b, s = a ++ x ++ b.
Proof.
  induction s as [|c s IH]; intros H.
  - cbn [contains] in H. rewrite orb_false_r in H.
    exists [], []. rewrite (startswith_split _ _ H) at 1.
    destruct x; [reflexivity | discriminate].
  - rewrite contains_cons in H. apply orb_true_iff in H as [H | H].
    + exists [], (skipn (length x) (c :: s)). apply (startswith_split _ _ H).
    + destruct (IH H) as (a & b & ->). exists (c :: a), b. reflexivity.
Qed.

Lemma contains_found (x a b : list ascii) : contains x (a ++ x ++ b) = true.
Proof.
  induction a as [|c a IH].
  - simpl app. destruct (x ++ b) as [|d t] eqn:E.
    + cbn [contains]. rewrite <- E, startswith_app. reflexivity.
    + rewrite contains_cons, <- E, startswith_app. reflexivity.
  - simpl app. rewrite contains_cons, IH. apply orb_true_r.
Qed.

Lemma contains_embedded (x y a b : list ascii) :
  contains x y = true -> contains x (a ++ y ++ b) = true.
Proof.
  intros H. destruct (contains_split x y H) as (u & v & ->).
  replace (a ++ (u ++ x ++ v) ++ b) with ((a ++ u) ++ x ++ (v ++ b))
    by (rewrite <- !app_assoc; reflexivity).
  apply contains_found.
Qed.

End Occurrences.

(** A substitution of [P] by [R] seen from a pattern [X] that cannot
    overlap [R]: it creates no occurrence of [X]. *)
Section Watch.
Variables P R X : list ascii.
Hypothesis P_nonempty : P <> [].
Hypothesis X_free : border_free X R = true.

Lemma watch_no_new_prefix (s u : list ascii) :
  startswith (u ++ replace P R s) X = true ->
  startswith (u ++ s) X = true.
Proof.
  revert u. induction s as [|c s IH]; intros u H.
  - rewrite replace_nil in H by assumption. exact H.
  - destruct (Nat.le_gt_cases (length X) (length u)) as [Hlong | Hshort].
    { rewrite (startswith_within u _ (replace P R (c :: s))) by assumption.
      exact H. }
    destruct (startswith (c :: s) P) eqn:E.
    + exfalso. rewrite (startswith_split _ _ E) in H.
      rewrite replace_hit in H by assumption.
      apply startswith_drop in H; [|lia].
      apply compat_of_prefix in H.
      destruct (Nat.eq_dec (length u) 0) as [Hz | Hnz].
      * rewrite Hz, skipn_O in H.
        pose proof (border_free_inside X R X_free 0 (border_free_new X R X_free)) as Hc.
        rewrite skipn_O in Hc. congruence.
      * rewrite (border_free_before X R X_free) in H by lia. discriminate.
    + rewrite replace_skip in H by assumption.
      change (u ++ c :: replace P R s) with (u ++ [c] ++ replace P R s) in H.
      rewrite app_assoc in H. apply IH in H.
      rewrite <- app_assoc in H. exact H.
Qed.

Lemma watch_keeps_absent (s : list ascii) :
  contains X s = false -> contains X (replace P R s) = false.
Proof.
  pose proof (border_free_old X R X_free) as HX.
  remember (length s) as n eqn:Hn. revert s Hn.
  induction n as [n IH] using lt_wf_ind. intros s -> Habs.
  destruct s as [|c s].
  - rewrite replace_nil by assumption. exact Habs.
  - destruct (startswith (c :: s) P) eqn:E.
    + rewrite (startswith_split _ _ E) in Habs |- *.
      rewrite replace_hit by assumption.
      apply (contains_behind_new X R X_free).
      apply (IH (length (skipn (length P) (c :: s)))); [|reflexivity|].
      * rewrite length_skipn. destruct P; [congruence | simpl; lia].
      * apply (contains_app_r X P). exact Habs.
    + rewrite replace_skip by assumption. rewrite contains_cons in Habs |- *.
      apply orb_false_iff in Habs as [Hhere Hlater].
      apply orb_false_iff. split.
      * destruct (startswith (c :: replace P R s) X) eqn:Hs; [|reflexivity].
        apply (watch_no_new_prefix s [c]) in Hs.
        change ([c] ++ s) with (c :: s) in Hs. congruence.
      * apply (IH (length s)); [simpl; lia | reflexivity | exact Hlater].
Qed.

End Watch.

(** A substitution of [P] seen from a text [G] that [P] cannot overlap: [G]
    is carried over untouched and the two sides are rewritten on their own. *)
Section Frame.
Variables P R G : list ascii.
Hypothesis P_nonempty : P <> [].
Hypothesis G_free : border_free P G = true.

Lemma frame_left (a t : list ascii) :
  replace P R (a ++ G ++ t) = replace P R a ++ replace P R (G ++ t).
Proof.
  remember (length a) as n eqn:Hn. revert a Hn.
  induction n as [n IH] using lt_wf_ind. intros a ->.
  destruct a as [|c a].
  - rewrite replace_nil by assumption. reflexivity.
  - destruct (startswith (c :: a) P) eqn:E.
    + rewrite (startswith_split _ _ E).
      rewrite <- app_assoc, !replace_hit by assumption.
      rewrite <- app_assoc. f_equal.
      apply (IH (length (skipn (length P) (c :: a)))); [|reflexivity].
      rewrite length_skipn. destruct P; [congruence | simpl; lia].
    + assert (E' : startswith ((c :: a) ++ G ++ t) P = false).
      { destruct (startswith ((c :: a) ++ G ++ t) P) eqn:Hs; [|reflexivity].
        destruct (Nat.le_gt_cases (length P) (length (c :: a))) as [Hin | Hout].
        - rewrite (startswith_within (c :: a) _ []) in Hs by assumption.
          rewrite app_nil_r in Hs. congruence.
        - apply startswith_drop in Hs; [|lia].
          apply compat_of_prefix in Hs.
          rewrite (border_free_before P G G_free) in Hs by (simpl in *; lia).
          discriminate. }
      simpl app in E' |- *. rewrite !replace_skip by assumption.
      simpl app. f_equal. apply (IH (length a)); [simpl; lia | reflexivity].
Qed.

Lemma frame_inside (t : list ascii) : replace P R (G ++ t) = G ++ replace P R t.
Proof.
  assert (H : forall d i, d = length G - i -> i <= length G ->
            replace P R (skipn i G ++ t) = skipn i G ++ replace P R t).
  { induction d as [|d IH]; intros i Hd Hi.
    - rewrite skipn_all2 by lia. reflexivity.
    - destruct (skipn i G) as [|c v] eqn:E.
      { reflexivity. }
      assert (Hv : v = skipn (S i) G).
      { replace (S i) with (1 + i) by lia. rewrite <- skipn_skipn, E. reflexivity. }
      simpl app. rewrite replace_skip.
      + f_equal. rewrite Hv. apply IH; lia.
      + destruct (startswith (c :: v ++ t) P) eqn:Hs; [|reflexivity].
        apply (compat_of_prefix P (c :: v) t) in Hs.
        rewrite <- E, (border_free_inside P G G_free) in Hs by lia. discriminate. }
  apply (H (length G) 0); lia.
Qed.

Lemma replace_frame (a t : list ascii) :
  replace P R (a ++ G ++ t) = replace P R a ++ G ++ replace P R t.
Proof. rewrite frame_left, frame_inside. reflexivity. Qed.

Lemma frame_keeps_present (s : list ascii) :
  contains G s = true -> contains G (replace P R s) = true.
Proof.
  intros H. destruct (contains_split G s H) as (a & b & ->).
  rewrite replace_frame. apply contains_found.
Qed.

End Frame.

(* ===================================================================== *)
(** ** Chains of substitutions behind a guard *)
(* ===================================================================== *)

Section Chains.

Lemma contains_find (p s : list ascii) :
  contains p s = true -> exists i, find p s = Some i.
Proof.
  induction s as [|c s IH]; intros H.
  - cbn [contains] in H. rewrite orb_false_r in H.
    exists 0. cbn [find]. rewrite H. reflexivity.
  - rewrite contains_cons in H. cbn [find].
    destruct (startswith (c :: s) p); [exists 0; reflexivity|].
    simpl in H. destruct (IH H) as [i ->]. exists (S i). reflexivity.
Qed.

(** Where the pattern occurs, the replacement is in the result. *)
Lemma replace_places (old new s : list ascii) :
  old <> [] -> contains old s = true ->
  exists a b, replace old new s = a ++ new ++ b.
Proof.
  intros Hold H. destruct (contains_find old s H) as [i Hi].
  rewrite (replace_find old new Hold s i Hi). eauto.
Qed.

Lemma apply_all_silent (x : list ascii) (rs : list (list ascii * list ascii))
    (s : list ascii) :
  chain_ok rs = true -> silent x rs = true ->
  contains x s = false -> contains x (apply_all rs s) = false.
Proof.
  revert s. induction rs as [|[old new] rs IH]; intros s Hok Hsil Habs; [exact Habs|].
  simpl in *. apply andb_true_iff in Hok as [Hok Hrest].
  apply andb_true_iff in Hok as [Hown _].
  apply andb_true_iff in Hsil as [Hx Hsil].
  apply IH; [assumption .. |].
  apply watch_keeps_absent; [eapply border_free_old; eassumption | assumption ..].
Qed.

Lemma apply_all_keeps (g : list ascii) (rs : list (list ascii * list ascii))
    (s : list ascii) :
  keeps g rs = true ->
  contains g s = true -> contains g (apply_all rs s) = true.
Proof.
  revert s. induction rs as [|[old new] rs IH]; intros s Hkeep Hin; [exact Hin|].
  simpl in *. apply andb_true_iff in Hkeep as [Hg Hkeep].
  apply IH; [assumption|].
  apply frame_keeps_present; [eapply border_free_old; eassumption | assumption ..].
Qed.

Lemma apply_all_clears (rs : list (list ascii * list ascii)) (s : list ascii) :
  chain_ok rs = true ->
  Forall (fun r => contains (fst r) (apply_all rs s) = false) rs.
Proof.
  revert s. induction rs as [|[old new] rs IH]; intros s Hok; [constructor|].
  simpl in Hok. apply andb_true_iff in Hok as [Hok Hrest].
  apply andb_true_iff in Hok as [Hown Hlater].
  constructor.
  - simpl. apply apply_all_silent; [assumption .. |].
    apply replace_clears. assumption.
  - simpl. apply IH. assumption.
Qed.

Lemma apply_all_settled (rs : list (list ascii * list ascii)) (s : list ascii) :
  Forall (fun r => contains (fst r) s = false) rs -> apply_all rs s = s.
Proof.
  induction 1 as [|[old new] rs Habs _ IH]; [reflexivity|].
  simpl in *. rewrite replace_absent by assumption. exact IH.
Qed.

Lemma apply_all_idempotent (rs : list (list ascii * list ascii)) (s : list ascii) :
  chain_ok rs = true -> apply_all rs (apply_all rs s) = apply_all rs s.
Proof. intros Hok. apply apply_all_settled, apply_all_clears. assumption. Qed.

(** A guarded insertion followed by a chain of substitutions. *)
Section Guarded.
Variables guard anchor payload : list ascii.
Variable rs : list (list ascii * list ascii).
Hypothesis anchor_nonempty : anchor <> [].
Hypothesis payload_guard : contains guard payload = true.
Hypothesis rs_ok : chain_ok rs = true.
Hypothesis rs_keeps : keeps guard rs = true.
Hypothesis rs_silent : silent anchor rs = true.

Lemma guarded_insert_cases (content : list ascii) :
  contains guard (guarded_insert guard anchor payload content) = true \/
  (guarded_insert guard anchor payload content = content /\ contains anchor content = false).
Proof.
  unfold guarded_insert. destruct (contains guard content) eqn:Hg; simpl; [left; exact Hg|].
  destruct (contains anchor content) eqn:Ha.
  - left. destruct (replace_places anchor payload content anchor_nonempty Ha)
      as (a & b & ->). apply contains_embedded. exact payload_guard.
  - right. split; [apply replace_absent; exact Ha | reflexivity].
Qed.

Lemma guarded_chain_idempotent (content : list ascii) :
  let edits s := apply_all rs (guarded_insert guard anchor payload s) in
  edits (edits content) = edits content.
Proof.
  cbv beta zeta.
  assert (Hins : guarded_insert guard anchor payload
                   (apply_all rs (guarded_insert guard anchor payload content))
                 = apply_all rs (guarded_insert guard anchor payload content)).
  { unfold guarded_insert at 1.
    destruct (contains guard (apply_all rs (guarded_insert guard anchor payload content)))
      eqn:Hg; [reflexivity|].
    simpl. apply replace_absent.
    destruct (guarded_insert_cases content) as [Hin | [Hsame Hno]].
    - apply (apply_all_keeps guard rs) in Hin; [congruence | assumption].
    - rewrite Hsame. apply apply_all_silent; assumption. }
  rewrite Hins. apply apply_all_idempotent. assumption.
Qed.

End Guarded.
End Chains.

(* ===================================================================== *)
(** ** Lines of a text *)
(* ===================================================================== *)

Section LinesOfText.

Lemma split_nl_nonempty (s : list ascii) : split_nl s <> [].
Proof.
  destruct s as [|c s]; [discriminate|]. simpl.
  destruct (Ascii.eqb c LF); [discriminate|]. destruct (split_nl s); discriminate.
Qed.

Lemma join_cons (l : list ascii) (ls : list (list ascii)) :
  ls <> [] -> join nl (l :: ls) = l ++ nl ++ join nl ls.
Proof. destruct ls; [congruence | reflexivity]. Qed.

Lemma join_split (s : list ascii) : join nl (split_nl s) = s.
Proof.
  induction s as [|c s IH]; [reflexivity|]. simpl split_nl.
  destruct (Ascii.eqb_spec c LF) as [-> | Hc].
  - rewrite join_cons by apply split_nl_nonempty. rewrite IH. reflexivity.
  - pose proof (split_nl_nonempty s) as Hne.
    destruct (split_nl s) as [|l ls]; [congruence|].
    destruct ls as [|l2 ls].
    + simpl in *. rewrite IH. reflexivity.
    + rewrite join_cons in IH |- * by discriminate.
      simpl. rewrite <- IH. reflexivity.
Qed.

Lemma split_nl_no_lf (s : list ascii) : Forall (fun l => ~ In LF l) (split_nl s).
Proof.
  induction s as [|c s IH]; [repeat constructor; intros []|]. simpl.
  destruct (Ascii.eqb_spec c LF) as [-> | Hc].
  - constructor; [intros [] | exact IH].
  - destruct (split_nl s) as [|l ls]; [repeat constructor; intros [? | []]; congruence|].
    inversion IH as [|? ? Hl Hls]; subst. constructor; [|exact Hls].
    intros [? | ?]; [congruence | contradiction].
Qed.

Lemma split_nl_line (l t : list ascii) :
  ~ In LF l -> split_nl (l ++ LF :: t) = l :: split_nl t.
Proof.
  induction l as [|c l IH]; intros Hl.
  - simpl. reflexivity.
  - simpl. destruct (Ascii.eqb_spec c LF) as [-> | Hc].
    + exfalso. apply Hl. left. reflexivity.
    + rewrite IH by (intros H; apply Hl; right; exact H). reflexivity.
Qed.

Lemma split_nl_last (l : list ascii) : ~ In LF l -> split_nl l = [l].
Proof.
  induction l as [|c l IH]; intros Hl; [reflexivity|]. simpl.
  destruct (Ascii.eqb_spec c LF) as [-> | Hc].
  - exfalso. apply Hl. left. reflexivity.
  - rewrite IH by (intros H; apply Hl; right; exact H). reflexivity.
Qed.

(** Lines without line feed survive [join] followed by [split]. *)
Lemma split_join (ls : list (list ascii)) :
  ls <> [] -> Forall (fun l => ~ In LF l) ls -> split_nl (join nl ls) = ls.
Proof.
  induction ls as [|l ls IH]; intros Hne Hall; [congruence|].
  inversion Hall as [|? ? Hl Hls]; subst.
  destruct ls as [|l2 ls].
  - simpl. apply split_nl_last. exact Hl.
  - rewrite join_cons by discriminate. unfold nl. simpl app.
    rewrite split_nl_line by exact Hl. f_equal. apply IH; [discriminate | exact Hls].
Qed.

Lemma insert_after_first_none (p : list ascii -> bool) (x : list ascii)
    (ls : list (list ascii)) :
  existsb p ls = false -> insert_after_first p x ls = ls.
Proof.
  induction ls as [|l ls IH]; intros H; [reflexivity|]. simpl in *.
  apply orb_false_iff in H as [Hl Hls]. rewrite Hl, IH by exact Hls. reflexivity.
Qed.

Lemma insert_after_first_some (p : list ascii -> bool) (x : list ascii)
    (ls : list (list ascii)) :
  existsb p ls = true ->
  exists pre l post,
    ls = pre ++ l :: post /\ existsb p pre = false /\ p l = true /\
    insert_after_first p x ls = pre ++ l :: x :: post.
Proof.
  induction ls as [|l ls IH]; intros H; [discriminate|]. simpl in *.
  destruct (p l) eqn:Hl.
  - exists [], l, ls. repeat split; assumption.
  - simpl in H. destruct (IH H) as (pre & l' & post & -> & Hpre & Hl' & ->).
    exists (l :: pre), l', post. simpl. rewrite Hl, Hpre. repeat split. exact Hl'.
Qed.

Lemma join_app_cons (pre : list (list ascii)) (l : list ascii) (post : list (list ascii)) :
  join nl (pre ++ l :: post) = concat (map (fun x => x ++ nl) pre) ++ join nl (l :: post).
Proof.
  induction pre as [|a pre IH]; [reflexivity|].
  simpl app. rewrite join_cons by (destruct pre; discriminate).
  rewrite IH. simpl. rewrite <- !app_assoc. reflexivity.
Qed.

Lemma startswith_nil_r (s : list ascii) : startswith s [] = true.
Proof. destruct s; reflexivity. Qed.

(** The first line of a text starts with an [x] free of line feeds exactly
    when the text does, and a later line does exactly when the text holds
    [x] right behind a line feed. *)
Lemma split_nl_starts (x s : list ascii) :
  ~ In LF x ->
  startswith (hd [] (split_nl s)) x = startswith s x.
Proof.
  revert x. induction s as [|c s IH]; intros x Hx; [reflexivity|].
  simpl split_nl. destruct (Ascii.eqb_spec c LF) as [-> | Hc].
  - destruct x as [|a x]; [reflexivity|]. simpl.
    destruct (Ascii.eqb_spec a LF) as [-> | _]; [|reflexivity].
    exfalso. apply Hx. left. reflexivity.
  - pose proof (split_nl_nonempty s) as Hne. specialize (IH (tl x)).
    destruct (split_nl s) as [|l ls]; [congruence|]. simpl in *.
    destruct x as [|a x]; [reflexivity|]. simpl in *.
    rewrite IH by (intros H; apply Hx; right; exact H). reflexivity.
Qed.

Lemma startswith_cons (a b : ascii) (p s : list ascii) :
  startswith (b :: s) (a :: p) = Ascii.eqb a b && startswith s p.
Proof. reflexivity. Qed.

Lemma split_nl_later (x s : list ascii) :
  x <> [] -> ~ In LF x ->
  existsb (fun line => startswith line x) (tl (split_nl s)) = contains (LF :: x) s.
Proof.
  intros Hne Hx. induction s as [|c s IH]; [reflexivity|].
  rewrite contains_cons, startswith_cons. cbn [split_nl].
  pose proof (split_nl_nonempty s) as Hs.
  pose proof (split_nl_starts x s Hx) as Hh.
  destruct (Ascii.eqb_spec c LF) as [-> | Hc].
  - rewrite Ascii.eqb_refl. cbn [tl andb].
    destruct (split_nl s) as [|l ls]; [congruence|].
    cbn [existsb hd tl] in *. rewrite Hh, IH. reflexivity.
  - destruct (Ascii.eqb_spec LF c) as [? | _]; [congruence|]. cbn [andb orb].
    destruct (split_nl s) as [|l ls]; [congruence|]. cbn [tl] in *. exact IH.
Qed.

Lemma has_line_text (x s : list ascii) :
  x <> [] -> ~ In LF x ->
  has_line x s = startswith s x || contains (LF :: x) s.
Proof.
  intros Hne Hx. unfold has_line.
  rewrite <- split_nl_starts, <- split_nl_later by assumption.
  pose proof (split_nl_nonempty s) as Hs.
  destruct (split_nl s) as [|l ls]; [congruence | reflexivity].
Qed.

End LinesOfText.

(* ===================================================================== *)
(** ** Idempotence of the guarded edits *)
(* ===================================================================== *)

Lemma config_edits_chain (content : list ascii) :
  ApplyPlatformRefactor.config_edits content
  = apply_all [(ApplyPlatformRefactor.config_flags_old, ApplyPlatformRefactor.config_flags_new)]
      (ApplyPlatformRefactor.add_platform_import content).
Proof. unfold ApplyPlatformRefactor.config_edits. cbv zeta. rewrite re_sub_lit. reflexivity. Qed.

Lemma hooks_edits_chain (content : list ascii) :
  ApplyPlatformRefactor.hooks_edits content
  = apply_all [(ApplyPlatformRefactor.hooks_flags_old, ApplyPlatformRefactor.hooks_flags_new)]
      (ApplyPlatformRefactor.add_platform_import content).
Proof. unfold ApplyPlatformRefactor.hooks_edits. cbv zeta. rewrite re_sub_lit. reflexivity. Qed.

Lemma config_edits_stable (content : list ascii) :
  ApplyPlatformRefactor.config_edits (ApplyPlatformRefactor.config_edits content)
  = ApplyPlatformRefactor.config_edits content.
Proof.
  rewrite !config_edits_chain.
  apply (guarded_chain_idempotent ApplyPlatformRefactor.platform_import
           ApplyPlatformRefactor.paths_import_old
           ApplyPlatformRefactor.paths_import_new);
    solve [discriminate | vm_compute; reflexivity].
Qed.

Lemma hooks_edits_stable (content : list ascii) :
  ApplyPlatformRefactor.hooks_edits (ApplyPlatformRefactor.hooks_edits content)
  = ApplyPlatformRefactor.hooks_edits content.
Proof.
  rewrite !hooks_edits_chain.
  apply (guarded_chain_idempotent ApplyPlatformRefactor.platform_import
           ApplyPlatformRefactor.paths_import_old
           ApplyPlatformRefactor.paths_import_new);
    solve [discriminate | vm_compute; reflexivity].
Qed.

Lemma add_helper_replace (anchor content : list ascii) :
  FixUtf8.add_helper anchor content
  = if negb (contains FixUtf8.helper_marker content)
    then replace anchor (FixUtf8.TRUNCATE_FUNCTION ++ anchor) content
    else content.
Proof.
  unfold FixUtf8.add_helper, re_sub_before. rewrite re_sub_lit. reflexivity.
Qed.

Lemma claude_edits_chain (content : list ascii) :
  FixUtf8.claude_edits content
  = apply_all claude_chain (FixUtf8.add_helper FixUtf8.enhance_prompt_anchor content).
Proof.
  unfold FixUtf8.claude_edits, FixUtf8.fix_context_slice, FixUtf8.fix_prompt_slice.
  rewrite !re_sub_lit. reflexivity.
Qed.

Lemma acemcp_edits_chain (content : list ascii) :
  FixUtf8.acemcp_edits content
  = apply_all acemcp_chain (FixUtf8.add_helper FixUtf8.enhance_context_anchor content).
Proof.
  unfold FixUtf8.acemcp_edits, FixUtf8.fix_trimmed_slice, FixUtf8.fix_result_slice.
  rewrite !re_sub_lit. reflexivity.
Qed.

Lemma claude_edits_stable (content : list ascii) :
  FixUtf8.claude_edits (FixUtf8.claude_edits content) = FixUtf8.claude_edits content.
Proof.
  rewrite !claude_edits_chain, !add_helper_replace.
  apply (guarded_chain_idempotent FixUtf8.helper_marker FixUtf8.enhance_prompt_anchor
           (FixUtf8.TRUNCATE_FUNCTION ++ FixUtf8.enhance_prompt_anchor));
    solve [discriminate | vm_compute; reflexivity].
Qed.

Lemma acemcp_edits_stable (content : list ascii) :
  FixUtf8.acemcp_edits (FixUtf8.acemcp_edits content) = FixUtf8.acemcp_edits content.
Proof.
  rewrite !acemcp_edits_chain, !add_helper_replace.
  apply (guarded_chain_idempotent FixUtf8.helper_marker FixUtf8.enhance_context_anchor
           (FixUtf8.TRUNCATE_FUNCTION ++ FixUtf8.enhance_context_anchor));
    solve [discriminate | vm_compute; reflexivity].
Qed.

(** X6.  The slice rewrites leave the text of the inserted helper function
    untouched wherever it stands, and rewrite what is before and what is
    after it on their own. *)
Theorem slice_rewrites_keep_helper (before after : list ascii) :
  let claude s := FixUtf8.fix_context_slice (FixUtf8.fix_prompt_slice s) in
  let acemcp s := FixUtf8.fix_trimmed_slice (FixUtf8.fix_result_slice s) in
  claude (before ++ FixUtf8.TRUNCATE_FUNCTION ++ after)
  = claude before ++ FixUtf8.TRUNCATE_FUNCTION ++ claude after /\
  acemcp (before ++ FixUtf8.TRUNCATE_FUNCTION ++ after)
  = acemcp before ++ FixUtf8.TRUNCATE_FUNCTION ++ acemcp after.
Proof.
  cbv zeta.
  unfold FixUtf8.fix_context_slice, FixUtf8.fix_prompt_slice,
    FixUtf8.fix_trimmed_slice, FixUtf8.fix_result_slice.
  rewrite !re_sub_lit.
  split.
  - rewrite (replace_frame FixUtf8.prompt_slice_old) by
      solve [discriminate | vm_compute; reflexivity].
    rewrite (replace_frame FixUtf8.context_slice_old) by
      solve [discriminate | vm_compute; reflexivity].
    reflexivity.
  - rewrite (replace_frame FixUtf8.result_slice_old) by
      solve [discriminate | vm_compute; reflexivity].
    rewrite (replace_frame FixUtf8.trimmed_slice_old) by
      solve [discriminate | vm_compute; reflexivity].
    reflexivity.
Qed.

(** X7.  After [add_helper] the buffer holds the helper marker, unless the
    insertion anchor is absent and the buffer is unchanged; a second
    [add_helper] changes nothing. *)
Theorem add_helper_postcondition (anchor content : list ascii) :
  anchor <> [] ->
  (contains FixUtf8.helper_marker (FixUtf8.add_helper anchor content) = true \/
   (FixUtf8.add_helper anchor content = content /\ contains anchor content = false)) /\
  FixUtf8.add_helper anchor (FixUtf8.add_helper anchor content)
  = FixUtf8.add_helper anchor content.
Proof.
  intros Hanchor.
  assert (Hcases :
    contains FixUtf8.helper_marker (FixUtf8.add_helper anchor content) = true \/
    (FixUtf8.add_helper anchor content = content /\ contains anchor content = false)).
  { rewrite !add_helper_replace.
    apply (guarded_insert_cases FixUtf8.helper_marker anchor
             (FixUtf8.TRUNCATE_FUNCTION ++ anchor) Hanchor).
    change (FixUtf8.TRUNCATE_FUNCTION ++ anchor)
      with ([] ++ FixUtf8.TRUNCATE_FUNCTION ++ anchor).
    apply contains_embedded. vm_compute. reflexivity. }
  split; [exact Hcases|].
  destruct Hcases as [Hin | [Hsame Hno]].
  - rewrite (add_helper_replace anchor (FixUtf8.add_helper anchor content)).
    rewrite Hin. reflexivity.
  - rewrite Hsame. exact Hsame.
Qed.

Lemma add_helper_postcondition_witness :
  FixUtf8.add_helper FixUtf8.enhance_prompt_anchor
    (FixUtf8.add_helper FixUtf8.enhance_prompt_anchor
       (lit "x" ++ FixUtf8.enhance_prompt_anchor))
  = FixUtf8.add_helper FixUtf8.enhance_prompt_anchor
      (lit "x" ++ FixUtf8.enhance_prompt_anchor).
Proof.
  apply (add_helper_postcondition FixUtf8.enhance_prompt_anchor). discriminate.
Defined.

(** X4.  The edits of [update_config] and of [update_hooks] (guarded
    import, then the creation-flags rewrite) are idempotent on every
    buffer. *)
Theorem guarded_flag_edits_idempotent (content : list ascii) :
  ApplyPlatformRefactor.config_edits (ApplyPlatformRefactor.config_edits content)
  = ApplyPlatformRefactor.config_edits content /\
  ApplyPlatformRefactor.hooks_edits (ApplyPlatformRefactor.hooks_edits content)
  = ApplyPlatformRefactor.hooks_edits content.
Proof. split; [apply config_edits_stable | apply hooks_edits_stable]. Qed.

(** X5.  The edits of [fix_claude_rs] and of [fix_acemcp_rs] (guarded
    helper insertion, then the two slice rewrites) are idempotent on every
    buffer. *)
Theorem utf8_edits_idempotent (content : list ascii) :
  FixUtf8.claude_edits (FixUtf8.claude_edits content) = FixUtf8.claude_edits content /\
  FixUtf8.acemcp_edits (FixUtf8.acemcp_edits content) = FixUtf8.acemcp_edits content.
Proof. split; [apply claude_edits_stable | apply acemcp_edits_stable]. Qed.

(* ===================================================================== *)
(** ** The import step of update_prompt_enhancer *)
(* ===================================================================== *)

Lemma apply_all_no_new_start (x : list ascii) (rs : list (list ascii * list ascii))
    (s : list ascii) :
  chain_ok rs = true -> silent x rs = true ->
  startswith (apply_all rs s) x = true -> startswith s x = true.
Proof.
  revert s. induction rs as [|[old new] rs IH]; intros s Hok Hsil H; [exact H|].
  simpl in *. apply andb_true_iff in Hok as [Hok Hrest].
  apply andb_true_iff in Hok as [Hown _].
  apply andb_true_iff in Hsil as [Hx Hsil].
  apply IH in H; [|assumption ..].
  apply (watch_no_new_prefix old new x (border_free_old _ _ Hown) Hx s []). exact H.
Qed.

Lemma prompt_enhancer_edits_chain (content : list ascii) :
  ApplyPlatformRefactor.prompt_enhancer_edits content
  = apply_all prompt_chain (ApplyPlatformRefactor.insert_platform_import content).
Proof.
  unfold ApplyPlatformRefactor.prompt_enhancer_edits. cbv zeta.
  rewrite !re_sub_lit. reflexivity.
Qed.


Lemma use_super_plain : use_super <> [] /\ ~ In LF use_super.
Proof.
  split; [discriminate|]. vm_compute.
  intros H. repeat destruct H as [H | H]; try discriminate; exact H.
Qed.

Lemma platform_import_plain : ~ In LF ApplyPlatformRefactor.platform_import.
Proof.
  vm_compute. intros H. repeat destruct H as [H | H]; try discriminate; exact H.
Qed.

(** X8.  [update_prompt_enhancer]'s import step leaves the buffer alone
    when the import is present or no line starts with [use super::];
    otherwise the lines of the result are the lines of the buffer with the
    import line right after the first line that starts with [use super::]. *)
Theorem insert_platform_import_lines (content : list ascii) :
  let starts line := startswith line (lit "use super::") in
  let result := ApplyPlatformRefactor.insert_platform_import content in
  (contains ApplyPlatformRefactor.platform_import content = true -> result = content) /\
  (existsb starts (split_nl content) = false -> result = content) /\
  (contains ApplyPlatformRefactor.platform_import content = false ->
   existsb starts (split_nl content) = true ->
   exists pre line post,
     split_nl content = pre ++ line :: post /\
     existsb starts pre = false /\ starts line = true /\
     split_nl result = pre ++ line :: ApplyPlatformRefactor.platform_import :: post).
Proof.
  intros starts result. subst result.
  unfold ApplyPlatformRefactor.insert_platform_import.
  split; [intros ->; reflexivity|]. split.
  - intros Hnone. destruct (negb _); [|reflexivity].
    rewrite insert_after_first_none by exact Hnone. apply join_split.
  - intros -> Hsome. simpl negb. cbv iota.
    destruct (insert_after_first_some starts ApplyPlatformRefactor.platform_import
                (split_nl content) Hsome) as (pre & line & post & Hsplit & Hpre & Hline & Hins).
    exists pre, line, post. repeat split; try assumption.
    fold starts. rewrite Hins. apply split_join; [destruct pre; discriminate|].
    pose proof (split_nl_no_lf content) as Hall. rewrite Hsplit in Hall.
    apply Forall_app in Hall as [Hp Hrest]. inversion Hrest as [|? ? Hl Hpost]; subst.
    apply Forall_app. split; [exact Hp|].
    constructor; [exact Hl|]. constructor; [apply platform_import_plain | exact Hpost].
Qed.

Lemma insert_platform_import_lines_witness :
  ApplyPlatformRefactor.insert_platform_import (lit "use super::platform;")
  = lit "use super::platform;".
Proof.
  apply (proj1 (insert_platform_import_lines (lit "use super::platform;"))).
  vm_compute. reflexivity.
Defined.

Lemma insert_platform_import_cases (content : list ascii) :
  contains ApplyPlatformRefactor.platform_import
    (ApplyPlatformRefactor.insert_platform_import content) = true \/
  (ApplyPlatformRefactor.insert_platform_import content = content /\
   has_line use_super content = false).
Proof.
  unfold ApplyPlatformRefactor.insert_platform_import.
  destruct (contains ApplyPlatformRefactor.platform_import content) eqn:Hg;
    simpl negb; cbv iota; [left; exact Hg|].
  destruct (has_line use_super content) eqn:Hl.
  - left. unfold has_line in Hl.
    destruct (insert_after_first_some _ ApplyPlatformRefactor.platform_import _ Hl)
      as (pre & line & post & _ & _ & _ & Hins).
    unfold use_super in Hins. rewrite Hins, join_app_cons.
    rewrite join_cons by discriminate.
    set (head := concat (map (fun x => x ++ nl) pre)).
    destruct post as [|p post].
    + cbn [join].
      replace (head ++ line ++ nl ++ ApplyPlatformRefactor.platform_import)
        with ((head ++ line ++ nl) ++ ApplyPlatformRefactor.platform_import ++ [])
        by (rewrite app_nil_r, <- !app_assoc; reflexivity).
      apply contains_found.
    + rewrite join_cons by discriminate.
      replace (head ++ line ++ nl ++ ApplyPlatformRefactor.platform_import
                ++ nl ++ join nl (p :: post))
        with ((head ++ line ++ nl) ++ ApplyPlatformRefactor.platform_import
                ++ (nl ++ join nl (p :: post)))
        by (rewrite <- !app_assoc; reflexivity).
      apply contains_found.
  - right. split; [|reflexivity]. unfold has_line in Hl.
    unfold use_super in Hl. rewrite insert_after_first_none by exact Hl. apply join_split.
Qed.

Lemma prompt_enhancer_edits_stable (content : list ascii) :
  ApplyPlatformRefactor.prompt_enhancer_edits
    (ApplyPlatformRefactor.prompt_enhancer_edits content)
  = ApplyPlatformRefactor.prompt_enhancer_edits content.
Proof.
  rewrite !prompt_enhancer_edits_chain.
  assert (Hok : chain_ok prompt_chain = true) by (vm_compute; reflexivity).
  set (y := apply_all prompt_chain (ApplyPlatformRefactor.insert_platform_import content)).
  assert (Hins : ApplyPlatformRefactor.insert_platform_import y = y).
  { destruct (insert_platform_import_cases y) as [Hin | [Hsame _]]; [|exact Hsame].
    destruct (contains ApplyPlatformRefactor.platform_import y) eqn:Hg.
    { unfold ApplyPlatformRefactor.insert_platform_import. rewrite Hg. reflexivity. }
    destruct (insert_platform_import_cases content) as [Hc | [Hsame Hno]].
    - apply (apply_all_keeps _ prompt_chain) in Hc; [|vm_compute; reflexivity].
      fold y in Hc. congruence.
    - destruct use_super_plain as [Hne Hplain].
      assert (Hy : has_line use_super y = false).
      { rewrite has_line_text in Hno |- * by assumption.
        apply orb_false_iff in Hno as [Hstart Hlater].
        subst y. rewrite Hsame. apply orb_false_iff. split.
        - destruct (startswith (apply_all prompt_chain content) use_super) eqn:E;
            [|reflexivity].
          apply apply_all_no_new_start in E;
            [congruence | exact Hok | vm_compute; reflexivity].
        - apply apply_all_silent; [exact Hok | vm_compute; reflexivity | exact Hlater]. }
      unfold ApplyPlatformRefactor.insert_platform_import. rewrite Hg. simpl negb. cbv iota.
      unfold has_line, use_super in Hy.
      rewrite insert_after_first_none by exact Hy. apply join_split. }
  rewrite Hins. apply apply_all_idempotent. exact Hok.
Qed.

(** X9.  The edits of [update_prompt_enhancer] (import step, then the
    three creation-flags rewrites) are idempotent on every buffer. *)
Theorem prompt_enhancer_edits_idempotent (content : list ascii) :
  ApplyPlatformRefactor.prompt_enhancer_edits
    (ApplyPlatformRefactor.prompt_enhancer_edits content)
  = ApplyPlatformRefactor.prompt_enhancer_edits content.
Proof. apply prompt_enhancer_edits_stable. Qed.

(* ===================================================================== *)
(** ** What a run touches *)
(* ===================================================================== *)

Section RunsOfJobs.

Lemma bind_ok {A B : Type} (c : M A) (k : A -> M B) (w w' : world) (a : A) :
  c w = (Ok a, w') -> (c ≫= k) w = k a w'.
Proof. intros H. unfold mbind, M_bind. rewrite H. reflexivity. Qed.

Lemma bind_raise {A B : Type} (c : M A) (k : A -> M B) (w w' : world) (e : exn) :
  c w = (Raise e, w') -> (c ≫= k) w = (Raise e, w').
Proof. intros H. unfold mbind, M_bind. rewrite H. reflexivity. Qed.

Lemma touches_only_refl (paths : list string) (w : world) : touches_only paths w w.
Proof. split; [reflexivity | intros; reflexivity]. Qed.

Lemma touches_only_trans (paths : list string) (w1 w2 w3 : world) :
  touches_only paths w1 w2 -> touches_only paths w2 w3 -> touches_only paths w1 w3.
Proof.
  intros [Hd1 Hf1] [Hd2 Hf2]. split; [congruence|].
  intros q Hq. rewrite Hf2, Hf1 by assumption. reflexivity.
Qed.

Lemma patch_file_touches (os : platform) (path : string)
    (edits : list ascii -> list ascii) (msg : list ascii) (paths : list string)
    (w : world) :
  In path paths -> touches_only paths w (snd (patch_file os path edits msg w)).
Proof.
  intros Hin. destruct (files w !! path) as [bytes|] eqn:H.
  - rewrite (patch_file_ok _ _ _ _ bytes) by assumption.
    unfold touches_only. simpl. split.
    + rewrite dom_insert_L. apply elem_of_dom_2 in H.
      apply subseteq_union_1_L, singleton_subseteq_l. exact H.
    + intros q Hq. apply lookup_insert_ne. intros ->. contradiction.
  - rewrite patch_file_missing by assumption. apply touches_only_refl.
Qed.

Lemma run_jobs_touches (paths : list string) (js : list (M unit)) (w : world) :
  Forall (fun j => forall w0, touches_only paths w0 (snd (j w0))) js ->
  touches_only paths w (snd (ApplyPlatformRefactor.run_jobs js w)).
Proof.
  intros Hjs. revert w. induction Hjs as [|j js Hj _ IH]; intros w.
  - apply touches_only_refl.
  - simpl. unfold mbind, M_bind. specialize (Hj w).
    destruct (j w) as [[[]|e] w1]; simpl in *.
    + eapply touches_only_trans; [exact Hj | apply IH].
    + exact Hj.
Qed.

Lemma report_success_world (w : world) :
  ApplyPlatformRefactor.report_success w
  = (Ok tt, World (files w) (writes w)
                  (stdout w ++ [nl ++ lit "=== All files updated successfully ==="]
                   ++ [nl ++ lit "Next steps:"]
                   ++ [lit "1. Run: cd src-tauri && cargo check"]
                   ++ [lit "2. Fix any remaining compilation errors"]
                   ++ [lit "3. Test the application"])
                  (stderr w)).
Proof.
  unfold ApplyPlatformRefactor.report_success, mbind, M_bind, print. simpl.
  rewrite <- !app_assoc. reflexivity.
Qed.

Lemma main_on_ok (os : platform) (w w1 : world) :
  ApplyPlatformRefactor.run_jobs (ApplyPlatformRefactor.jobs os) w = (Ok tt, w1) ->
  ApplyPlatformRefactor.main os w
  = (0%Z, snd (ApplyPlatformRefactor.report_success w1)).
Proof.
  intros Hrun.
  unfold ApplyPlatformRefactor.main, run_script, ApplyPlatformRefactor.main_body,
    try_except.
  rewrite (bind_ok _ _ w w1 tt Hrun). rewrite report_success_world. reflexivity.
Qed.

Lemma jobs_touch (os : platform) :
  Forall (fun j => forall w0, touches_only (job_paths os) w0 (snd (j w0)))
         (ApplyPlatformRefactor.jobs os).
Proof.
  unfold ApplyPlatformRefactor.jobs.
  repeat (constructor;
          [intros w0; apply patch_file_touches; unfold job_paths; simpl; tauto|]).
  constructor.
Qed.

End RunsOfJobs.

(** X10.  A run of [apply_platform_refactor.py], failed or not, creates
    and deletes no file and changes no file other than its five. *)
Theorem main_touches_only_its_files (os : platform) (w : world) :
  touches_only (job_paths os) w (snd (ApplyPlatformRefactor.main os w)).
Proof.
  pose proof (run_jobs_touches (job_paths os) (ApplyPlatformRefactor.jobs os) w
                (jobs_touch os)) as H.
  destruct (ApplyPlatformRefactor.run_jobs (ApplyPlatformRefactor.jobs os) w)
    as [[[]|e] w1] eqn:Hrun.
  - rewrite (main_on_ok os w w1 Hrun), report_success_world. exact H.
  - rewrite (main_on_raise os w w1 e Hrun). exact H.
Qed.

Lemma fix_claude_rs_ok (os : platform) (w : world) (bytes : list ascii) :
  files w !! claude_rs = Some bytes ->
  exists said,
    FixUtf8.fix_claude_rs os w
    = (Ok tt, World (<[claude_rs := translate_out os
                        (FixUtf8.claude_edits (universal_newlines bytes))]> (files w))
                    (writes w ++ [claude_rs]) (stdout w ++ said) (stderr w)).
Proof.
  intros H. unfold FixUtf8.fix_claude_rs, mbind, M_bind, read_text.
  change "src/commands/claude.rs" with claude_rs. rewrite H.
  destruct (negb (contains FixUtf8.helper_marker (universal_newlines bytes)));
    unfold write_text, print; simpl; eexists; rewrite <- !app_assoc; reflexivity.
Qed.

Lemma fix_acemcp_rs_ok (os : platform) (w : world) (bytes : list ascii) :
  files w !! acemcp_rs = Some bytes ->
  exists said,
    FixUtf8.fix_acemcp_rs os w
    = (Ok tt, World (<[acemcp_rs := translate_out os
                        (FixUtf8.acemcp_edits (universal_newlines bytes))]> (files w))
                    (writes w ++ [acemcp_rs]) (stdout w ++ said) (stderr w)).
Proof.
  intros H. unfold FixUtf8.fix_acemcp_rs, mbind, M_bind, read_text.
  change "src/commands/acemcp.rs" with acemcp_rs. rewrite H.
  destruct (negb (contains FixUtf8.helper_marker (universal_newlines bytes)));
    unfold write_text, print; simpl; eexists; rewrite <- !app_assoc; reflexivity.
Qed.

Lemma fix_claude_rs_missing (os : platform) (w : world) :
  files w !! claude_rs = None ->
  FixUtf8.fix_claude_rs os w = (Raise (FileNotFoundError claude_rs), w).
Proof.
  intros H. unfold FixUtf8.fix_claude_rs, mbind, M_bind, read_text.
  change "src/commands/claude.rs" with claude_rs. rewrite H. reflexivity.
Qed.

Lemma fix_acemcp_rs_missing (os : platform) (w : world) :
  files w !! acemcp_rs = None ->
  FixUtf8.fix_acemcp_rs os w = (Raise (FileNotFoundError acemcp_rs), w).
Proof.
  intros H. unfold FixUtf8.fix_acemcp_rs, mbind, M_bind, read_text.
  change "src/commands/acemcp.rs" with acemcp_rs. rewrite H. reflexivity.
Qed.

(* ===================================================================== *)
(** ** Text-mode round trip and second runs *)
(* ===================================================================== *)

Section Newlines.

Lemma universal_newlines_no_cr (s : list ascii) : ~ In CR (universal_newlines s).
Proof.
  remember (length s) as n eqn:Hn. revert s Hn.
  induction n as [n IH] using lt_wf_ind. intros s ->.
  destruct s as [|c s]; [intros []|]. cbn [universal_newlines].
  destruct (Ascii.eqb_spec c CR) as [-> | Hc].
  - destruct s as [|d s]; [intros [H | []]; discriminate|].
    destruct (Ascii.eqb d LF).
    + intros [H | H]; [discriminate|]. revert H. apply (IH (length s)); [simpl; lia | reflexivity].
    + intros [H | H]; [discriminate|]. revert H.
      apply (IH (length (d :: s))); [simpl; lia | reflexivity].
  - intros [H | H]; [congruence|]. revert H. apply (IH (length s)); [simpl; lia | reflexivity].
Qed.

(** What was written in text mode is read back as it was. *)
Lemma read_back (os : platform) (s : list ascii) :
  ~ In CR s -> universal_newlines (translate_out os s) = s.
Proof.
  induction s as [|c s IH]; intros Hs; [reflexivity|].
  assert (Hs' : ~ In CR s) by (intros H; apply Hs; right; exact H).
  cbn [translate_out]. destruct (Ascii.eqb_spec c LF) as [-> | Hc].
  - destruct os; simpl; rewrite IH by exact Hs'; reflexivity.
  - cbn [universal_newlines]. destruct (Ascii.eqb_spec c CR) as [-> | _].
    + exfalso. apply Hs. left. reflexivity.
    + rewrite IH by exact Hs'. reflexivity.
Qed.

Lemma sub_from_chars (m : list ascii -> option nat) (repl s : list ascii)
    (k : nat) (x : ascii) :
  In x (sub_from m repl s k) -> In x s \/ In x repl.
Proof.
  revert k. induction s as [|c s IH]; intros k H.
  - destruct k; simpl in H; [|contradiction].
    destruct (m []) as [[|n]|]; rewrite ?app_nil_r in H; tauto.
  - destruct k as [|k]; cbn [sub_from] in H.
    + destruct (m (c :: s)) as [[|n]|].
      * apply in_app_or in H as [H | [H | H]]; [tauto | left; left; exact H |].
        destruct (IH _ H); [left; right|]; tauto.
      * apply in_app_or in H as [H | H]; [tauto|].
        destruct (IH _ H); [left; right|]; tauto.
      * destruct H as [H | H]; [left; left; exact H|].
        destruct (IH _ H); [left; right|]; tauto.
    + destruct (IH _ H); [left; right|]; tauto.
Qed.

Lemma replace_plain (old new s : list ascii) :
  ~ In CR new -> ~ In CR s -> ~ In CR (replace old new s).
Proof.
  intros Hnew Hs H. apply sub_from_chars in H. tauto.
Qed.

Lemma apply_all_plain (rs : list (list ascii * list ascii)) (s : list ascii) :
  Forall (fun r => ~ In CR (snd r)) rs -> ~ In CR s -> ~ In CR (apply_all rs s).
Proof.
  intros Hrs. revert s. induction Hrs as [|[old new] rs Hnew _ IH]; intros s Hs; [exact Hs|].
  simpl. apply IH. apply replace_plain; assumption.
Qed.

Lemma plain_check (s : list ascii) :
  forallb (fun c => negb (Ascii.eqb c CR)) s = true -> ~ In CR s.
Proof.
  intros H Hin. rewrite forallb_forall in H. specialize (H CR Hin).
  rewrite Ascii.eqb_refl in H. discriminate.
Qed.

Lemma join_chars (sep : list ascii) (ls : list (list ascii)) (x : ascii) :
  In x (join sep ls) -> In x sep \/ exists l, In l ls /\ In x l.
Proof.
  induction ls as [|l ls IH]; intros H; [contradiction|].
  destruct ls as [|l2 ls].
  - right. exists l. split; [left; reflexivity | exact H].
  - change (join sep (l :: l2 :: ls)) with (l ++ sep ++ join sep (l2 :: ls)) in H.
    apply in_app_or in H as [H | H]; [right; exists l; split; [left; reflexivity | exact H]|].
    apply in_app_or in H as [H | H]; [left; exact H|].
    destruct (IH H) as [Hs | (l' & Hl' & Hx)]; [left; exact Hs|].
    right. exists l'. split; [right; exact Hl' | exact Hx].
Qed.

Lemma split_nl_chars (s l : list ascii) (x : ascii) :
  In l (split_nl s) -> In x l -> In x s.
Proof.
  revert l. induction s as [|c s IH]; intros l Hl Hx.
  - destruct Hl as [<- | []]. contradiction.
  - cbn [split_nl] in Hl. destruct (Ascii.eqb c LF).
    + destruct Hl as [<- | Hl]; [contradiction|]. right. eapply IH; eassumption.
    + destruct (split_nl s) as [|l0 ls].
      * destruct Hl as [<- | []]. destruct Hx as [-> | []]. left. reflexivity.
      * destruct Hl as [<- | Hl].
        -- destruct Hx as [-> | Hx]; [left; reflexivity|].
           right. apply (IH l0); [left; reflexivity | exact Hx].
        -- right. apply (IH l); [right; exact Hl | exact Hx].
Qed.

Lemma insert_after_first_lines (p : list ascii -> bool) (g : list ascii)
    (ls : list (list ascii)) (l : list ascii) :
  In l (insert_after_first p g ls) -> l = g \/ In l ls.
Proof.
  induction ls as [|l0 ls IH]; intros H; [contradiction|]. simpl in H.
  destruct (p l0).
  - destruct H as [<- | [<- | H]]; [right; left; reflexivity | left; reflexivity |].
    right. right. exact H.
  - destruct H as [<- | H]; [right; left; reflexivity|].
    destruct (IH H); [left | right; right]; assumption.
Qed.

Lemma insert_platform_import_plain (s : list ascii) :
  ~ In CR s -> ~ In CR (ApplyPlatformRefactor.insert_platform_import s).
Proof.
  intros Hs. unfold ApplyPlatformRefactor.insert_platform_import.
  destruct (negb _); [|exact Hs].
  intros H. apply join_chars in H as [H | (l & Hl & Hx)].
  - destruct H as [H | []]. discriminate.
  - apply insert_after_first_lines in Hl as [-> | Hl].
    + revert Hx. apply plain_check. vm_compute. reflexivity.
    + apply Hs. eapply split_nl_chars; eassumption.
Qed.

Lemma guarded_plain (guard anchor payload s : list ascii) :
  ~ In CR payload -> ~ In CR s ->
  ~ In CR (if negb (contains guard s) then replace anchor payload s else s).
Proof.
  intros Hp Hs. destruct (negb _); [apply replace_plain; assumption | exact Hs].
Qed.

(** Text-mode write then read gives back the buffer, so a job whose edits
    are idempotent and bring in no carriage return leaves the files, on a
    second run, as the first run left them. *)
Lemma patch_file_twice (os : platform) (path : string)
    (edits : list ascii -> list ascii) (msg : list ascii) (w : world) :
  (forall s, ~ In CR s -> ~ In CR (edits s)) ->
  (forall s, edits (edits s) = edits s) ->
  files (snd (patch_file os path edits msg (snd (patch_file os path edits msg w))))
  = files (snd (patch_file os path edits msg w)).
Proof.
  intros Hplain Hidem. destruct (files w !! path) as [bytes|] eqn:H.
  - rewrite (patch_file_ok _ _ _ _ bytes w) by exact H. simpl snd.
    erewrite patch_file_ok by (simpl; apply lookup_insert_eq). simpl.
    rewrite read_back by (apply Hplain, universal_newlines_no_cr).
    rewrite Hidem. apply insert_insert_eq.
  - rewrite !patch_file_missing by (rewrite ?patch_file_missing by exact H; exact H).
    reflexivity.
Qed.

End Newlines.

(** X12.  Running [update_config], [update_hooks] or
    [update_prompt_enhancer] a second time leaves every file as the first
    run left it, on both platforms and whatever line endings the file had. *)
Theorem guarded_jobs_settle (os : platform) (w : world) :
  let again (job : M unit) := files (snd (job (snd (job w)))) = files (snd (job w)) in
  again (ApplyPlatformRefactor.update_config os) /\
  again (ApplyPlatformRefactor.update_hooks os) /\
  again (ApplyPlatformRefactor.update_prompt_enhancer os).
Proof.
  cbv zeta. repeat split; apply patch_file_twice.
  - intros s Hs. rewrite config_edits_chain.
    apply apply_all_plain; [repeat constructor; apply plain_check; vm_compute; reflexivity|].
    apply guarded_plain; [apply plain_check; vm_compute; reflexivity | exact Hs].
  - apply config_edits_stable.
  - intros s Hs. rewrite hooks_edits_chain.
    apply apply_all_plain; [repeat constructor; apply plain_check; vm_compute; reflexivity|].
    apply guarded_plain; [apply plain_check; vm_compute; reflexivity | exact Hs].
  - apply hooks_edits_stable.
  - intros s Hs. rewrite prompt_enhancer_edits_chain.
    apply apply_all_plain; [repeat constructor; apply plain_check; vm_compute; reflexivity|].
    apply insert_platform_import_plain. exact Hs.
  - apply prompt_enhancer_edits_stable.
Qed.

(* ===================================================================== *)
(** ** The run with every file readable *)
(* ===================================================================== *)

Ltac paths_differ os := destruct os; intros Heq; vm_compute in Heq; discriminate.

Lemma run_jobs_all_readable (os : platform) (w : world)
    (b1 b2 b3 b4 b5 : list ascii) :
  let at_base := path_join os ApplyPlatformRefactor.BASE_DIR in
  files w !! at_base "cli_runner.rs" = Some b1 ->
  files w !! at_base "config.rs" = Some b2 ->
  files w !! at_base "hooks.rs" = Some b3 ->
  files w !! at_base "prompt_enhancer.rs" = Some b4 ->
  files w !! at_base "mod.rs" = Some b5 ->
  ApplyPlatformRefactor.run_jobs (ApplyPlatformRefactor.jobs os) w
  = (Ok tt,
     World
       (<[at_base "mod.rs" :=
            translate_out os (ApplyPlatformRefactor.mod_edits (universal_newlines b5))]>
        (<[at_base "prompt_enhancer.rs" :=
            translate_out os (ApplyPlatformRefactor.prompt_enhancer_edits (universal_newlines b4))]>
         (<[at_base "hooks.rs" :=
            translate_out os (ApplyPlatformRefactor.hooks_edits (universal_newlines b3))]>
          (<[at_base "config.rs" :=
            translate_out os (ApplyPlatformRefactor.config_edits (universal_newlines b2))]>
           (<[at_base "cli_runner.rs" :=
            translate_out os (ApplyPlatformRefactor.cli_runner_edits (universal_newlines b1))]>
            (files w))))))
       (writes w ++ job_paths os)
       (stdout w ++ [lit "Updated cli_runner.rs"; lit "Updated config.rs";
                     lit "Updated hooks.rs"; lit "Updated prompt_enhancer.rs";
                     lit "Updated mod.rs"])
       (stderr w)).
Proof.
  intros at_base H1 H2 H3 H4 H5.
  assert (N12 : at_base "cli_runner.rs" <> at_base "config.rs") by paths_differ os.
  assert (N13 : at_base "cli_runner.rs" <> at_base "hooks.rs") by paths_differ os.
  assert (N14 : at_base "cli_runner.rs" <> at_base "prompt_enhancer.rs") by paths_differ os.
  assert (N15 : at_base "cli_runner.rs" <> at_base "mod.rs") by paths_differ os.
  assert (N23 : at_base "config.rs" <> at_base "hooks.rs") by paths_differ os.
  assert (N24 : at_base "config.rs" <> at_base "prompt_enhancer.rs") by paths_differ os.
  assert (N25 : at_base "config.rs" <> at_base "mod.rs") by paths_differ os.
  assert (N34 : at_base "hooks.rs" <> at_base "prompt_enhancer.rs") by paths_differ os.
  assert (N35 : at_base "hooks.rs" <> at_base "mod.rs") by paths_differ os.
  assert (N45 : at_base "prompt_enhancer.rs" <> at_base "mod.rs") by paths_differ os.
  unfold ApplyPlatformRefactor.jobs. cbn [ApplyPlatformRefactor.run_jobs].
  erewrite bind_ok by (apply (patch_file_ok os _ _ _ b1); exact H1).
  erewrite bind_ok by (apply (patch_file_ok os _ _ _ b2); simpl;
                       rewrite !lookup_insert_ne by assumption; exact H2).
  erewrite bind_ok by (apply (patch_file_ok os _ _ _ b3); simpl;
                       rewrite !lookup_insert_ne by assumption; exact H3).
  erewrite bind_ok by (apply (patch_file_ok os _ _ _ b4); simpl;
                       rewrite !lookup_insert_ne by assumption; exact H4).
  erewrite bind_ok by (apply (patch_file_ok os _ _ _ b5); simpl;
                       rewrite !lookup_insert_ne by assumption; exact H5).
  simpl. unfold mret, M_ret. unfold job_paths. simpl map. fold at_base.
  rewrite <- !app_assoc. reflexivity.
Qed.

(** X13.  When the five files can be read, the run exits with status 0,
    writes them once each in job order, leaves in each its own edits applied
    to its own content, prints the five [Updated] lines and nothing on the
    error stream. *)
Theorem main_all_readable (os : platform) (w : world)
    (b1 b2 b3 b4 b5 : list ascii) :
  let at_base := path_join os ApplyPlatformRefactor.BASE_DIR in
  files w !! at_base "cli_runner.rs" = Some b1 ->
  files w !! at_base "config.rs" = Some b2 ->
  files w !! at_base "hooks.rs" = Some b3 ->
  files w !! at_base "prompt_enhancer.rs" = Some b4 ->
  files w !! at_base "mod.rs" = Some b5 ->
  let w' := snd (ApplyPlatformRefactor.main os w) in
  let written edits bytes := Some (translate_out os (edits (universal_newlines bytes))) in
  fst (ApplyPlatformRefactor.main os w) = 0%Z /\
  writes w' = writes w ++ job_paths os /\
  files w' !! at_base "cli_runner.rs" = written ApplyPlatformRefactor.cli_runner_edits b1 /\
  files w' !! at_base "config.rs" = written ApplyPlatformRefactor.config_edits b2 /\
  files w' !! at_base "hooks.rs" = written ApplyPlatformRefactor.hooks_edits b3 /\
  files w' !! at_base "prompt_enhancer.rs"
  = written ApplyPlatformRefactor.prompt_enhancer_edits b4 /\
  files w' !! at_base "mod.rs" = written ApplyPlatformRefactor.mod_edits b5 /\
  stderr w' = stderr w /\
  firstn 5 (skipn (length (stdout w)) (stdout w'))
  = [lit "Updated cli_runner.rs"; lit "Updated config.rs"; lit "Updated hooks.rs";
     lit "Updated prompt_enhancer.rs"; lit "Updated mod.rs"].
Proof.
  intros at_base H1 H2 H3 H4 H5 w' written. subst w' written.
  assert (N12 : at_base "cli_runner.rs" <> at_base "config.rs") by paths_differ os.
  assert (N13 : at_base "cli_runner.rs" <> at_base "hooks.rs") by paths_differ os.
  assert (N14 : at_base "cli_runner.rs" <> at_base "prompt_enhancer.rs") by paths_differ os.
  assert (N15 : at_base "cli_runner.rs" <> at_base "mod.rs") by paths_differ os.
  assert (N23 : at_base "config.rs" <> at_base "hooks.rs") by paths_differ os.
  assert (N24 : at_base "config.rs" <> at_base "prompt_enhancer.rs") by paths_differ os.
  assert (N25 : at_base "config.rs" <> at_base "mod.rs") by paths_differ os.
  assert (N34 : at_base "hooks.rs" <> at_base "prompt_enhancer.rs") by paths_differ os.
  assert (N35 : at_base "hooks.rs" <> at_base "mod.rs") by paths_differ os.
  assert (N45 : at_base "prompt_enhancer.rs" <> at_base "mod.rs") by paths_differ os.
  rewrite (main_on_ok os w _ (run_jobs_all_readable os w b1 b2 b3 b4 b5 H1 H2 H3 H4 H5)).
  rewrite report_success_world. cbn [fst snd writes files stdout stderr].
  repeat split.
  - rewrite !lookup_insert_ne by (apply not_eq_sym; assumption). apply lookup_insert_eq.
  - rewrite !lookup_insert_ne by (apply not_eq_sym; assumption). apply lookup_insert_eq.
  - rewrite !lookup_insert_ne by (apply not_eq_sym; assumption). apply lookup_insert_eq.
  - rewrite !lookup_insert_ne by (apply not_eq_sym; assumption). apply lookup_insert_eq.
  - apply lookup_insert_eq.
  - rewrite <- !app_assoc, skipn_app, skipn_all, Nat.sub_diag. reflexivity.
Qed.

Lemma main_all_readable_witness :
  let w := fold_right (fun p => with_file p (lit "fn f() {}")) empty_world (job_paths Posix) in
  writes (snd (ApplyPlatformRefactor.main Posix w)) = job_paths Posix.
Proof.
  intros w.
  destruct (main_all_readable Posix w (lit "fn f() {}") (lit "fn f() {}") (lit "fn f() {}")
              (lit "fn f() {}") (lit "fn f() {}")) as (_ & H & _);
    [vm_compute; reflexivity .. |].
  exact H.
Defined.

(* ===================================================================== *)
(** ** Runs of fix_utf8.py and lines of fix_mutex.py *)
(* ===================================================================== *)

Section FixUtf8Runs.

Lemma claude_acemcp_differ : claude_rs <> acemcp_rs.
Proof. discriminate. Qed.

Lemma print_only_said (msg : list ascii) (w : world) :
  exists w', print msg w = (Ok tt, w') /\ only_said w w'.
Proof. eexists. split; [reflexivity|]. repeat split. Qed.

Lemma fix_claude_rs_step (os : platform) (w : world) (bytes : list ascii) :
  files w !! claude_rs = Some bytes ->
  exists w', FixUtf8.fix_claude_rs os w = (Ok tt, w') /\
             files w' = <[claude_rs := written os FixUtf8.claude_edits bytes]> (files w) /\
             writes w' = writes w ++ [claude_rs] /\ stderr w' = stderr w.
Proof.
  intros H. destruct (fix_claude_rs_ok os w bytes H) as [said E].
  eexists. split; [exact E|]. repeat split.
Qed.

Lemma fix_acemcp_rs_step (os : platform) (w : world) (bytes : list ascii) :
  files w !! acemcp_rs = Some bytes ->
  exists w', FixUtf8.fix_acemcp_rs os w = (Ok tt, w') /\
             files w' = <[acemcp_rs := written os FixUtf8.acemcp_edits bytes]> (files w) /\
             writes w' = writes w ++ [acemcp_rs] /\ stderr w' = stderr w.
Proof.
  intros H. destruct (fix_acemcp_rs_ok os w bytes H) as [said E].
  eexists. split; [exact E|]. repeat split.
Qed.

Lemma fix_utf8_report_error (e : exn) (w : world) :
  FixUtf8.report_error e w
  = (Ok tt, World (files w) (writes w)
                  (stdout w ++ [nl ++ lit "[ERROR] 修复失败: " ++ exn_message e])
                  (stderr w ++ [lit "Traceback (most recent call last):"])).
Proof. reflexivity. Qed.

Ltac settle :=
  repeat match goal with
         | H : files ?a = _ |- context [files ?a] => rewrite H
         | H : writes ?a = _ |- context [writes ?a] => rewrite H
         | H : stderr ?a = _ |- context [stderr ?a] => rewrite H
         end.

Ltac step_print :=
  match goal with
  | |- context [(print ?m ≫= ?k) ?w0] =>
    let w' := fresh "w" in
    let E := fresh "E" in
    let Sf := fresh "Sf" in
    let Sw := fresh "Sw" in
    let Se := fresh "Se" in
    destruct (print_only_said m w0) as (w' & E & Sf & Sw & Se);
    rewrite (bind_ok _ _ _ _ _ E); clear E
  end.

(** What [fix_utf8.py] leaves, by which of its two files can be read. *)
Lemma fix_utf8_main_world (os : platform) (w : world) :
  let r := FixUtf8.main os w in
  let failed path :=
    nl ++ lit "[ERROR] 修复失败: " ++ exn_message (FileNotFoundError path) in
  fst r = 0%Z /\
  match files w !! claude_rs with
  | None =>
    files (snd r) = files w /\ writes (snd r) = writes w /\
    List.last (stdout (snd r)) [] = failed claude_rs
  | Some b1 =>
    let f1 := <[claude_rs := written os FixUtf8.claude_edits b1]> (files w) in
    match files w !! acemcp_rs with
    | None =>
      files (snd r) = f1 /\ writes (snd r) = writes w ++ [claude_rs] /\
      List.last (stdout (snd r)) [] = failed acemcp_rs
    | Some b2 =>
      files (snd r) = <[acemcp_rs := written os FixUtf8.acemcp_edits b2]> f1 /\
      writes (snd r) = writes w ++ [claude_rs; acemcp_rs] /\
      stderr (snd r) = stderr w
    end
  end.
Proof.
  cbv zeta. split; [apply fix_utf8_main_exit_zero|].
  unfold FixUtf8.main, FixUtf8.main_body, run_script.
  do 4 step_print. unfold try_except.
  match goal with |- context [(FixUtf8.fix_claude_rs os ≫= _) ?x] => rename x into wa end.
  assert (Hc : files wa !! claude_rs = files w !! claude_rs) by (settle; reflexivity).
  destruct (files w !! claude_rs) as [b1|].
  - destruct (fix_claude_rs_step os wa b1 Hc) as (wb & Eb & Fb & Wb & Sb).
    rewrite (bind_ok _ _ _ _ _ Eb). clear Eb. step_print.
    match goal with |- context [(FixUtf8.fix_acemcp_rs os ≫= _) ?x] => rename x into wc end.
    assert (Ha : files wc !! acemcp_rs = files w !! acemcp_rs).
    { settle. rewrite lookup_insert_ne by apply claude_acemcp_differ. reflexivity. }
    destruct (files w !! acemcp_rs) as [b2|].
    + destruct (fix_acemcp_rs_step os wc b2 Ha) as (wd & Ed & Fd & Wd & Sd).
      rewrite (bind_ok _ _ _ _ _ Ed). clear Ed. do 3 step_print.
      match goal with |- context [print FixUtf8.banner ?x] =>
        destruct (print_only_said FixUtf8.banner x) as (wlast & Elast & Flast & Wlast & Slast);
        rewrite Elast end.
      cbn [snd]. repeat split; settle; rewrite <- ?app_assoc; reflexivity.
    + rewrite (bind_raise _ _ _ _ _ (fix_acemcp_rs_missing os wc Ha)).
      rewrite fix_utf8_report_error. cbn [snd files writes stdout].
      repeat split; [settle; reflexivity | settle; reflexivity | apply List.last_last].
  - rewrite (bind_raise _ _ _ _ _ (fix_claude_rs_missing os wa Hc)).
    rewrite fix_utf8_report_error. cbn [snd files writes stdout].
    repeat split; [settle; reflexivity | settle; reflexivity | apply List.last_last].
Qed.

End FixUtf8Runs.

Lemma utf8_edits_plain (s : list ascii) :
  ~ In CR s ->
  ~ In CR (FixUtf8.claude_edits s) /\ ~ In CR (FixUtf8.acemcp_edits s).
Proof.
  intros Hs. rewrite claude_edits_chain, acemcp_edits_chain, !add_helper_replace.
  split; (apply apply_all_plain;
          [repeat constructor; apply plain_check; vm_compute; reflexivity|]);
    (apply guarded_plain; [apply plain_check; vm_compute; reflexivity | exact Hs]).
Qed.

Lemma fixed_read_back (os : platform) (edits : list ascii -> list ascii)
    (bytes : list ascii) :
  (forall s, ~ In CR s -> ~ In CR (edits s)) ->
  (forall s, edits (edits s) = edits s) ->
  translate_out os
    (edits (universal_newlines (translate_out os (edits (universal_newlines bytes)))))
  = translate_out os (edits (universal_newlines bytes)).
Proof.
  intros Hplain Hidem.
  rewrite read_back by (apply Hplain, universal_newlines_no_cr).
  rewrite Hidem. reflexivity.
Qed.

(** X14.  A second run of [fix_utf8.py] leaves every file as the first run
    left it, in every world. *)
Theorem fix_utf8_second_run_changes_nothing (os : platform) (w : world) :
  files (snd (FixUtf8.main os (snd (FixUtf8.main os w))))
  = files (snd (FixUtf8.main os w)).
Proof.
  assert (Hc : forall b, translate_out os (FixUtf8.claude_edits (universal_newlines
                 (translate_out os (FixUtf8.claude_edits (universal_newlines b)))))
               = translate_out os (FixUtf8.claude_edits (universal_newlines b))).
  { intros b. apply fixed_read_back; [apply utf8_edits_plain | apply claude_edits_stable]. }
  assert (Ha : forall b, translate_out os (FixUtf8.acemcp_edits (universal_newlines
                 (translate_out os (FixUtf8.acemcp_edits (universal_newlines b)))))
               = translate_out os (FixUtf8.acemcp_edits (universal_newlines b))).
  { intros b. apply fixed_read_back; [apply utf8_edits_plain | apply acemcp_edits_stable]. }
  pose proof (fix_utf8_main_world os w) as (_ & E).
  pose proof (fix_utf8_main_world os (snd (FixUtf8.main os w))) as (_ & E').
  cbv zeta in E, E'. unfold written in E, E'.
  pose proof claude_acemcp_differ as Hne.
  destruct (files w !! claude_rs) as [b1|] eqn:H1.
  - destruct (files w !! acemcp_rs) as [b2|] eqn:H2.
    + destruct E as (E & _). rewrite E in E' |- *.
      rewrite lookup_insert_ne in E' by (apply not_eq_sym; exact Hne).
      rewrite !lookup_insert_eq in E'. destruct E' as (E' & _). rewrite E'.
      rewrite Hc, Ha.
      rewrite (insert_id _ claude_rs)
        by (rewrite lookup_insert_ne by (apply not_eq_sym; exact Hne);
            apply lookup_insert_eq).
      apply insert_id. apply lookup_insert_eq.
    + destruct E as (E & _). rewrite E in E' |- *.
      rewrite lookup_insert_eq in E'.
      rewrite lookup_insert_ne, H2 in E' by exact Hne.
      destruct E' as (E' & _). rewrite E', Hc. apply insert_insert_eq.
  - destruct E as (E & _). rewrite E in E' |- *. rewrite H1 in E'.
    destruct E' as (E' & _). exact E'.
Qed.

(** X15.  When [claude.rs] can be read and [acemcp.rs] cannot,
    [fix_utf8.py] has rewritten [claude.rs] before it fails: that write
    stays, the error for [acemcp.rs] is the last line printed, the status
    is 0. *)
Theorem fix_utf8_stops_at_unreadable_acemcp (os : platform) (w : world)
    (bytes : list ascii) :
  files w !! claude_rs = Some bytes ->
  files w !! acemcp_rs = None ->
  let w' := snd (FixUtf8.main os w) in
  fst (FixUtf8.main os w) = 0%Z /\
  files w' = <[claude_rs := translate_out os
                 (FixUtf8.claude_edits (universal_newlines bytes))]> (files w) /\
  writes w' = writes w ++ [claude_rs] /\
  List.last (stdout w') []
  = nl ++ lit "[ERROR] 修复失败: " ++ exn_message (FileNotFoundError acemcp_rs).
Proof.
  intros H1 H2 w'. subst w'.
  pose proof (fix_utf8_main_world os w) as (Hexit & E). cbv zeta in E.
  rewrite H1, H2 in E. destruct E as (Hf & Hw & Hl).
  repeat split; assumption.
Qed.

Lemma fix_utf8_stops_at_unreadable_acemcp_witness :
  let w := with_file claude_rs (lit "let s = &context_str[..MAX_CONTEXT_LENGTH];") empty_world in
  files (snd (FixUtf8.main Posix w)) !! claude_rs
  = Some (lit "let s = truncate_utf8_safe(&context_str, MAX_CONTEXT_LENGTH);").
Proof.
  intros w.
  destruct (fix_utf8_stops_at_unreadable_acemcp Posix w
              (lit "let s = &context_str[..MAX_CONTEXT_LENGTH];"))
    as (_ & H & _); [vm_compute; reflexivity | vm_compute; reflexivity |].
  rewrite H. vm_compute. reflexivity.
Defined.

Section MutexLines.

Lemma readlines_line (body t : list ascii) :
  ~ In LF body -> readlines ((body ++ [LF]) ++ t) = (body ++ [LF]) :: readlines t.
Proof.
  induction body as [|c body IH]; intros Hb.
  - reflexivity.
  - simpl. destruct (Ascii.eqb_spec c LF) as [-> | Hc].
    + exfalso. apply Hb. left. reflexivity.
    + simpl in IH. rewrite IH by (intros H; apply Hb; right; exact H). reflexivity.
Qed.

Lemma readlines_complete (ls : list (list ascii)) (t : list ascii) :
  Forall complete_line ls -> readlines (concat ls ++ t) = ls ++ readlines t.
Proof.
  induction 1 as [|l ls (body & -> & Hb) _ IH]; [reflexivity|].
  simpl concat. rewrite <- app_assoc, readlines_line by exact Hb.
  rewrite IH. reflexivity.
Qed.

Lemma readlines_plain (l : list ascii) :
  l <> [] -> ~ In LF l -> readlines l = [l].
Proof.
  induction l as [|c l IH]; intros Hne Hl; [congruence|]. simpl.
  destruct (Ascii.eqb_spec c LF) as [-> | Hc].
  - exfalso. apply Hl. left. reflexivity.
  - destruct l as [|d l]; [reflexivity|].
    rewrite IH by (discriminate || (intros H; apply Hl; right; exact H)). reflexivity.
Qed.

(** The lines [readlines] gives: complete lines, then perhaps one last
    line without line feed. *)
Lemma readlines_shape (s : list ascii) :
  exists ls rest,
    readlines s = ls ++ rest /\ Forall complete_line ls /\
    (rest = [] \/ exists l, rest = [l] /\ l <> [] /\ ~ In LF l).
Proof.
  induction s as [|c s (ls & rest & E & Hls & Hrest)].
  - exists [], []. repeat split; [constructor | left; reflexivity].
  - simpl. destruct (Ascii.eqb_spec c LF) as [-> | Hc].
    + exists ([LF] :: ls), rest. rewrite E. repeat split; [|exact Hrest].
      constructor; [|exact Hls]. exists []. split; [reflexivity | intros []].
    + rewrite E. destruct ls as [|l ls].
      * destruct Hrest as [-> | (l & -> & Hne & Hl)].
        -- exists [], [[c]]. repeat split; [constructor|]. right.
           exists [c]. repeat split; [discriminate | intros [? | []]; congruence].
        -- exists [], [c :: l]. repeat split; [constructor|]. right.
           exists (c :: l). repeat split; [discriminate|].
           intros [? | ?]; [congruence | contradiction].
      * inversion Hls as [|? ? (body & -> & Hb) Hls']; subst.
        exists ((c :: body ++ [LF]) :: ls), rest. repeat split; [|exact Hrest].
        constructor; [|exact Hls'].
        exists (c :: body). split; [reflexivity|].
        intros [? | ?]; [congruence | contradiction].
Qed.

Lemma readlines_of_lines (ls rest : list (list ascii)) :
  Forall complete_line ls ->
  (rest = [] \/ exists l, rest = [l] /\ l <> [] /\ ~ In LF l) ->
  readlines (concat (ls ++ rest)) = ls ++ rest.
Proof.
  intros Hls Hrest. rewrite concat_app, readlines_complete by exact Hls.
  f_equal. destruct Hrest as [-> | (l & -> & Hne & Hl)]; [reflexivity|].
  simpl. rewrite app_nil_r. apply readlines_plain; assumption.
Qed.

Lemma new_block_complete : Forall complete_line (readlines FixMutex.new_block).
Proof.
  destruct (readlines_shape FixMutex.new_block) as (ls & rest & E & Hls & Hrest).
  destruct Hrest as [-> | (l & -> & Hne & Hl)].
  - rewrite E, app_nil_r. exact Hls.
  - exfalso. assert (Hlast : List.last (readlines FixMutex.new_block) [] = l)
      by (rewrite E; apply List.last_last).
    vm_compute in Hlast. subst l. apply Hl. left. reflexivity.
Qed.

Lemma mutex_edits_lines_eq (content : list ascii) :
  640 <= length (readlines content) ->
  readlines (FixMutex.mutex_edits content)
  = firstn 628 (readlines content) ++ readlines FixMutex.new_block
    ++ skipn 640 (readlines content).
Proof.
  intros Hlen.
  destruct (readlines_shape content) as (ls & rest & E & Hls & Hrest).
  unfold FixMutex.mutex_edits, FixMutex.replace_block. rewrite E in *.
  assert (Hrl : length rest <= 1)
    by (destruct Hrest as [-> | (l & -> & _)]; simpl; lia).
  rewrite length_app in Hlen.
  rewrite firstn_app, skipn_app.
  replace (628 - length ls) with 0 by lia. rewrite firstn_O, app_nil_r.
  set (rest' := skipn (640 - length ls) rest).
  assert (Hrest' : rest' = [] \/ exists l, rest' = [l] /\ l <> [] /\ ~ In LF l).
  { subst rest'. destruct Hrest as [-> | (l & -> & Hne & Hl)].
    - left. apply skipn_nil.
    - destruct (640 - length ls) as [|n].
      + right. exists l. repeat split; assumption.
      + left. simpl. apply skipn_nil. }
  clearbody rest'.
  rewrite concat_app.
  change (concat ([FixMutex.new_block] ++ skipn 640 ls ++ rest'))
    with (FixMutex.new_block ++ concat (skipn 640 ls ++ rest')).
  rewrite <- (concat_readlines FixMutex.new_block) at 1.
  rewrite readlines_complete by (apply Forall_take; exact Hls).
  f_equal.
  rewrite readlines_complete by apply new_block_complete.
  f_equal.
  apply readlines_of_lines; [apply Forall_drop; exact Hls | exact Hrest'].
Qed.

End MutexLines.

(* ===================================================================== *)
(** ** fix_mutex.py *)
(* ===================================================================== *)

(** X16.  On a file of at most 628 lines [fix_mutex.py] removes nothing
    and appends the block at the end. *)
Theorem mutex_edits_short_file (content : list ascii) :
  length (readlines content) <= 628 ->
  FixMutex.mutex_edits content = content ++ FixMutex.new_block.
Proof.
  intros Hlen. unfold FixMutex.mutex_edits, FixMutex.replace_block.
  rewrite firstn_all2 by exact Hlen. rewrite skipn_all2 by lia.
  rewrite concat_app, concat_readlines.
  change (concat ([FixMutex.new_block] ++ [])) with (FixMutex.new_block ++ []).
  rewrite app_nil_r. reflexivity.
Qed.

Lemma mutex_edits_short_file_witness :
  FixMutex.mutex_edits (lit "fn main() {}") = lit "fn main() {}" ++ FixMutex.new_block.
Proof. apply mutex_edits_short_file. vm_compute. lia. Defined.

(** X17.  On a file of at least 640 lines the lines of the result are the
    first 628 lines, the 13 lines of the block, and the lines from the 641st
    on: the file grows by one line. *)
Theorem mutex_edits_replaces_twelve_lines (content : list ascii) :
  640 <= length (readlines content) ->
  readlines (FixMutex.mutex_edits content)
  = firstn 628 (readlines content) ++ readlines FixMutex.new_block
    ++ skipn 640 (readlines content) /\
  length (readlines (FixMutex.mutex_edits content)) = length (readlines content) + 1.
Proof.
  intros Hlen. rewrite (mutex_edits_lines_eq content Hlen). split; [reflexivity|].
  rewrite !length_app, length_firstn, length_skipn.
  replace (length (readlines FixMutex.new_block)) with 13 by (vm_compute; reflexivity).
  lia.
Qed.

Lemma mutex_edits_replaces_twelve_lines_witness :
  length (readlines (FixMutex.mutex_edits (concat (repeat (lit "x" ++ nl) 700)))) = 701.
Proof.
  destruct (mutex_edits_replaces_twelve_lines (concat (repeat (lit "x" ++ nl) 700)))
    as [_ H]; [vm_compute; lia|].
  rewrite H. vm_compute. reflexivity.
Defined.

(** X18.  [fix_mutex.py] has no handler: when [registry.rs] cannot be read
    the script exits with status 1 and has written and printed nothing;
    otherwise it exits with status 0 after one write and one line. *)
Theorem fix_mutex_exit_status (os : platform) (w : world) :
  match files w !! registry_rs with
  | None =>
    fst (FixMutex.main os w) = 1%Z /\
    files (snd (FixMutex.main os w)) = files w /\
    writes (snd (FixMutex.main os w)) = writes w /\
    stdout (snd (FixMutex.main os w)) = stdout w
  | Some bytes =>
    fst (FixMutex.main os w) = 0%Z /\
    files (snd (FixMutex.main os w))
    = <[registry_rs := translate_out os
          (FixMutex.mutex_edits (universal_newlines bytes))]> (files w) /\
    writes (snd (FixMutex.main os w)) = writes w ++ [registry_rs] /\
    stdout (snd (FixMutex.main os w))
    = stdout w ++ [lit "Successfully fixed Mutex deadlock issue"]
  end.
Proof.
  unfold FixMutex.main, run_script.
  change (FixMutex.script_body os)
    with (patch_file os registry_rs FixMutex.mutex_edits
            (lit "Successfully fixed Mutex deadlock issue")).
  destruct (files w !! registry_rs) as [bytes|] eqn:H.
  - rewrite (patch_file_ok _ _ _ _ bytes) by exact H. repeat split.
  - rewrite patch_file_missing by exact H. repeat split.
Qed.

(* ===================================================================== *)
(** ** Line endings through update_cli_runner *)
(* ===================================================================== *)

Lemma re_sub_plain (r : list re_item) (repl s : list ascii) :
  ~ In CR repl -> ~ In CR s -> ~ In CR (re_sub r repl s).
Proof.
  intros Hrepl Hs H. apply sub_from_chars in H. tauto.
Qed.

Lemma cli_runner_edits_plain (s : list ascii) :
  ~ In CR s -> ~ In CR (ApplyPlatformRefactor.cli_runner_edits s).
Proof.
  intros Hs. unfold ApplyPlatformRefactor.cli_runner_edits. cbv zeta.
  apply re_sub_plain; [apply plain_check; vm_compute; reflexivity|].
  apply re_sub_plain; [intros []|].
  apply replace_plain; [apply plain_check; vm_compute; reflexivity|].
  apply replace_plain; [apply plain_check; vm_compute; reflexivity | exact Hs].
Qed.

(** C7, amended.  The file written by [update_cli_runner] holds the edits
    applied to the text in which every CRLF and lone CR was read as LF,
    every LF then written as the platform's separator: what is written
    follows the platform's convention throughout.  A file that already
    does ([bytes] is a text [s] without carriage returns as the platform
    writes it) is written back as the edits applied to [s], with the line
    endings it had; on POSIX that is any file without carriage returns. *)
Theorem update_cli_runner_translates_newlines
    (os : platform) (w : world) (bytes : list ascii) :
  let cli := path_join os ApplyPlatformRefactor.BASE_DIR "cli_runner.rs" in
  files w !! cli = Some bytes ->
  let w' := snd (ApplyPlatformRefactor.update_cli_runner os w) in
  let text := universal_newlines bytes in
  files w' !! cli
  = Some (translate_out os (ApplyPlatformRefactor.cli_runner_edits text)) /\
  ~ In CR (ApplyPlatformRefactor.cli_runner_edits text) /\
  (forall s, ~ In CR s -> bytes = translate_out os s ->
     files w' !! cli
     = Some (translate_out os (ApplyPlatformRefactor.cli_runner_edits s))) /\
  (os = Posix -> ~ In CR bytes ->
   files w' !! cli = Some (ApplyPlatformRefactor.cli_runner_edits bytes)).
Proof.
  intros cli Hread w' text. subst w' text.
  change (ApplyPlatformRefactor.update_cli_runner os)
    with (patch_file os cli ApplyPlatformRefactor.cli_runner_edits
            (lit "Updated cli_runner.rs")).
  rewrite (patch_file_ok _ _ _ _ bytes) by exact Hread.
  simpl snd. simpl files. rewrite lookup_insert_eq.
  split; [reflexivity|]. split; [|split].
  - apply cli_runner_edits_plain, universal_newlines_no_cr.
  - intros s Hs ->. rewrite read_back by exact Hs. reflexivity.
  - intros -> Hplain.
    rewrite translate_out_posix, universal_newlines_plain by assumption.
    reflexivity.
Qed.

Lemma update_cli_runner_translates_newlines_witness :
  let cli := path_join Windows ApplyPlatformRefactor.BASE_DIR "cli_runner.rs" in
  let crlf := lit "a" ++ [CR; LF] ++ lit "b" ++ [CR; LF] in
  let w := with_file cli crlf empty_world in
  files (snd (ApplyPlatformRefactor.update_cli_runner Windows w)) !! cli = Some crlf.
Proof.
  intros cli crlf w.
  refine (proj1 (proj2 (proj2 (update_cli_runner_translates_newlines Windows w crlf _)))
            (lit "a" ++ [LF] ++ lit "b" ++ [LF]) _ _).
  - vm_compute. reflexivity.
  - vm_compute. intros H. repeat destruct H as [H | H]; try discriminate; exact H.
  - vm_compute. reflexivity.
Defined.
